(** * Frame codec: decoder, intent encoder and context token

    A shallow embedding of [src/index.tsx]:
    - [htmlToFrame], the decoder that scans the [<meta>] elements of a
      document and rebuilds a frame with its diagnostics;
    - [parseIntents] / [parseIntent], the encoder that numbers the buttons
      of an intent tree, together with the [Button] and [TextInput]
      components;
    - [deserializeJson], which reads the context token of a request,
      [serializeJson], which writes it, [toBaseUrl] and the URLs and
      meta elements of the frame route.

    JavaScript strings are modelled by [string], which holds the UTF-8
    octets of the text; numbers that the code only uses as integers by
    [Z]; [null] / [undefined] results by [option]. *)

From Stdlib Require Import String Ascii ZArith List Bool Lia Sorted.
From Stdlib Require Import DecimalString.
From Stdlib Require DecimalPos DecimalZ.
Import ListNotations.

Set Warnings "-register-all".

Local Open Scope string_scope.
Local Open Scope Z_scope.
Local Open Scope list_scope.

(** ** JavaScript helpers *)

(** [a ?? b] *)
Definition nullish {A : Type} (a : option A) (b : A) : A :=
  match a with
  | Some v => v
  | None => b
  end.

(** [s.startsWith(p)], returning what follows the prefix. *)
Fixpoint strip_prefix (p s : string) : option string :=
  match p with
  | EmptyString => Some s
  | String a p' =>
      match s with
      | EmptyString => None
      | String b s' => if Ascii.eqb a b then strip_prefix p' s' else None
      end
  end.

Definition is_digit (c : ascii) : bool :=
  let n := nat_of_ascii c in (48 <=? n)%nat && (n <=? 57)%nat.

Definition digit_value (c : ascii) : Z := Z.of_nat (nat_of_ascii c) - 48.

Definition is_js_whitespace (c : ascii) : bool :=
  let n := nat_of_ascii c in
  (n =? 32)%nat || ((9 <=? n)%nat && (n <=? 13)%nat).

Fixpoint skip_whitespace (s : string) : string :=
  match s with
  | String c s' => if is_js_whitespace c then skip_whitespace s' else s
  | EmptyString => s
  end.

(** The digits read so far are accumulated in [acc]; [None] until a first
    digit has been seen. *)
Fixpoint parse_digits (s : string) (acc : option Z) : option Z :=
  match s with
  | String c s' =>
      if is_digit c
      then parse_digits s' (Some (10 * nullish acc 0 + digit_value c))
      else acc
  | EmptyString => acc
  end.

(** [parseInt(s, 10)]; [None] stands for [NaN]. *)
Definition parseInt (s : string) : option Z :=
  match skip_whitespace s with
  | String "-" s' => option_map Z.opp (parse_digits s' None)
  | String "+" s' => parse_digits s' None
  | s' => parse_digits s' None
  end.

(** [String(n)] for an integer [n]. *)
Definition Z_to_string (n : Z) : string :=
  NilZero.string_of_int (Z.to_int n).

(** ** Insertion-ordered maps ([Map] and plain objects used as maps) *)

Section OrderedMap.
Context {K V : Type} (eqb : K -> K -> bool).

(** [m.get(k)] *)
Fixpoint map_get (m : list (K * V)) (k : K) : option V :=
  match m with
  | [] => None
  | (k', v) :: m' => if eqb k k' then Some v else map_get m' k
  end.

(** [m.set(k, v)]: an existing key keeps its place and takes the new
    value, a new key goes last. *)
Fixpoint map_set (m : list (K * V)) (k : K) (v : V) : list (K * V) :=
  match m with
  | [] => [(k, v)]
  | (k', v') :: m' =>
      if eqb k k' then (k', v) :: m' else (k', v') :: map_set m' k v
  end.
End OrderedMap.

(** [xs.toSorted(cmp)]: a stable sort, here by insertion. *)
Section ToSorted.
Context {A : Type} (cmp : A -> A -> Z).

Fixpoint sorted_insert (x : A) (l : list A) : list A :=
  match l with
  | [] => [x]
  | y :: l' => if cmp x y <=? 0 then x :: l else y :: sorted_insert x l'
  end.

Definition toSorted (l : list A) : list A :=
  fold_right sorted_insert [] l.
End ToSorted.

(** ** The frame model ([types.ts], as used by the decoder) *)

(** A button title is the tag's content; the decoder's fallback
    [content ?? index] would put the numeric index there. *)
Inductive TitleValue : Type :=
| TitleString (s : string)
| TitleNumber (n : Z).

Record FrameButton : Type := mkFrameButton {
  index : Z;
  title : TitleValue;
  type : string
}.

(** [Omit<FrameButton, 'type'>] *)
Record ButtonEntry : Type := mkButtonEntry {
  entry_index : Z;
  entry_title : TitleValue
}.

Record FrameInput : Type := mkFrameInput { text : string }.

Module Debug.
Record t : Type := mk {
  buttons : list FrameButton;
  imageUrl : string;
  input : option FrameInput;
  postUrl : string;
  version : string;
  buttonsAreOutOfOrder : bool;
  fallbackImageToUrl : bool;
  htmlTags : list string;
  image : string;
  inputTextTooLong : bool;
  invalidButtons : list Z;
  postUrlTooLong : bool;
  valid : bool
}.
End Debug.

Module Frame.
Record t : Type := mk {
  buttons : list FrameButton;
  imageUrl : string;
  input : option FrameInput;
  postUrl : string;
  version : string;
  debug : Debug.t;
  title : string
}.
End Frame.

(** ** The decoder: [htmlToFrame] *)

(** One element of [document.querySelectorAll('meta')]: what
    [getAttribute] answers for [property] and [content] ([None] when the
    attribute is absent) and the element's [outerHTML]. *)
Record HTMLMetaElement : Type := mkMeta {
  attr_property : option string;
  attr_content : option string;
  outerHTML : string
}.

Definition validPropertyNames : list string :=
  [ "fc:frame"; "fc:frame:image"; "fc:frame:input:text";
    "fc:frame:post_url"; "og:image"; "og:title" ].

(** [validPropertyNames.has(p)] *)
Definition validPropertyNames_has (p : string) : bool :=
  existsb (String.eqb p) validPropertyNames.

(** *** [buttonRegex = /fc:frame:button:(1|2|3|4)(?::(action|target))?$/] *)

(** The result of a successful match: capture groups 1 and 2. *)
Record MatchArray : Type := mkMatch {
  group1 : string;
  group2 : option string
}.

(** [(1|2|3|4)] at the head of [s]. *)
Definition match_index_group (s : string) : option (string * string) :=
  match s with
  | String c r =>
      if existsb (Ascii.eqb c) ["1"; "2"; "3"; "4"]%char
      then Some (String c EmptyString, r)
      else None
  | EmptyString => None
  end.

(** [:(action|target)] followed by the end of the input. *)
Definition match_suffix_group (s : string) : option string :=
  match strip_prefix ":" s with
  | Some r =>
      match strip_prefix "action" r with
      | Some EmptyString => Some "action"
      | _ =>
          match strip_prefix "target" r with
          | Some EmptyString => Some "target"
          | _ => None
          end
      end
  | None => None
  end.

(** The whole pattern tried at the head of [s]: the optional group is
    greedy, and is given up when the end of input does not follow. *)
Definition match_here (s : string) : option MatchArray :=
  match strip_prefix "fc:frame:button:" s with
  | Some r1 =>
      match match_index_group r1 with
      | Some (g1, r2) =>
          match match_suffix_group r2 with
          | Some g2 => Some (mkMatch g1 (Some g2))
          | None =>
              match r2 with
              | EmptyString => Some (mkMatch g1 None)
              | _ => None
              end
          end
      | None => None
      end
  | None => None
  end.

(** [s.match(buttonRegex)]: the pattern has no [^], so every start
    position is tried, leftmost first. *)
Fixpoint buttonRegex_match (s : string) : option MatchArray :=
  match match_here s with
  | Some m => Some m
  | None =>
      match s with
      | String _ s' => buttonRegex_match s'
      | EmptyString => None
      end
  end.

(** [buttonRegex.test(s)] *)
Definition buttonRegex_test (s : string) : bool :=
  match buttonRegex_match s with
  | Some _ => true
  | None => false
  end.

(** *** The scan *)

Module Scan.
(** The local variables of [htmlToFrame] that the loop updates. *)
Record state : Type := mk {
  currentButtonIndex : Z;
  buttonsAreMissing : bool;
  buttonsAreOutOfOrder : bool;
  buttonMap : list (Z * ButtonEntry);
  buttonActionMap : list (Z * string);
  invalidButtons : list Z;
  properties : list (string * string)
}.

Definition init : state := mk 0 false false [] [] [] [].
End Scan.

(** The [else] branch of [if (type)]: a plain button tag. *)
Definition scan_button (index : Z) (content : string) (st : Scan.state)
  : Scan.state :=
  let buttonsAreOutOfOrder :=
    if Scan.currentButtonIndex st >=? index then true
    else Scan.buttonsAreOutOfOrder st in
  let '(currentButtonIndex, buttonsAreMissing) :=
    if Scan.currentButtonIndex st + 1 =? index
    then (index, Scan.buttonsAreMissing st)
    else (Scan.currentButtonIndex st, true) in
  let invalidButtons :=
    if buttonsAreOutOfOrder || buttonsAreMissing
    then Scan.invalidButtons st ++ [index]
    else Scan.invalidButtons st in
  let title := nullish (Some (TitleString content)) (TitleNumber index) in
  Scan.mk currentButtonIndex buttonsAreMissing buttonsAreOutOfOrder
    (map_set Z.eqb (Scan.buttonMap st) index (mkButtonEntry index title))
    (Scan.buttonActionMap st)
    invalidButtons
    (Scan.properties st).

(** [if (type) buttonActionMap.set(index, content)] *)
Definition scan_action (index : Z) (content : string) (st : Scan.state)
  : Scan.state :=
  Scan.mk (Scan.currentButtonIndex st) (Scan.buttonsAreMissing st)
    (Scan.buttonsAreOutOfOrder st) (Scan.buttonMap st)
    (map_set Z.eqb (Scan.buttonActionMap st) index content)
    (Scan.invalidButtons st) (Scan.properties st).

(** [properties[property] = content] *)
Definition scan_property (property content : string) (st : Scan.state)
  : Scan.state :=
  Scan.mk (Scan.currentButtonIndex st) (Scan.buttonsAreMissing st)
    (Scan.buttonsAreOutOfOrder st) (Scan.buttonMap st)
    (Scan.buttonActionMap st) (Scan.invalidButtons st)
    (map_set String.eqb (Scan.properties st) property content).

(** The body of [for (const metaTag of metaTags)]. *)
Definition scan_tag (st : Scan.state) (metaTag : HTMLMetaElement)
  : Scan.state :=
  match attr_property metaTag with
  | None => st
  | Some EmptyString => st
  | Some property =>
      let content := nullish (attr_content metaTag) "" in
      if validPropertyNames_has property
      then scan_property property content st
      else if buttonRegex_test property then
        match buttonRegex_match property with
        | Some matchArray =>
            match parseInt (group1 matchArray) with
            | Some index =>
                match group2 matchArray with
                | Some _ => scan_action index content st
                | None => scan_button index content st
                end
            | None => st
            end
        | None => st
        end
      else st
  end.

Definition scan (metaTags : list HTMLMetaElement) : Scan.state :=
  fold_left scan_tag metaTags Scan.init.

(** [for (const [index, button] of buttonMap) buttons.push(...)] *)
Definition collect_buttons (buttonMap : list (Z * ButtonEntry))
    (buttonActionMap : list (Z * string)) : list FrameButton :=
  map (fun '(index, button) =>
         mkFrameButton (entry_index button) (entry_title button)
           (nullish (map_get Z.eqb buttonActionMap index) "post"))
      buttonMap.

(** [s.length] counts UTF-16 code units.  Read off the UTF-8 octets that
    the model keeps: a character of one, two or three octets is one code
    unit, a character of four octets is two (a surrogate pair), and the
    octets that continue a character add nothing. *)
Definition code_units_of_octet (c : ascii) : nat :=
  let n := nat_of_ascii c in
  if (n <? 128)%nat then 1%nat
  else if (n <? 192)%nat then 0%nat
  else if (n <? 240)%nat then 1%nat
  else 2%nat.

Fixpoint utf16_length (s : string) : nat :=
  match s with
  | EmptyString => 0%nat
  | String c r => (code_units_of_octet c + utf16_length r)%nat
  end.

Definition is_empty (s : string) : bool :=
  match s with
  | EmptyString => true
  | _ => false
  end.

Definition htmlToFrame (metaTags : list HTMLMetaElement) : Frame.t :=
  let st := scan metaTags in
  let properties := Scan.properties st in
  let image := nullish (map_get String.eqb properties "og:image") "" in
  let imageUrl := nullish (map_get String.eqb properties "fc:frame:image") "" in
  let postUrl := nullish (map_get String.eqb properties "fc:frame:post_url") "" in
  let title := nullish (map_get String.eqb properties "og:title") "" in
  let version := nullish (map_get String.eqb properties "fc:frame") "vNext" in
  let buttons :=
    toSorted (fun a b => index a - index b)
      (collect_buttons (Scan.buttonMap st) (Scan.buttonActionMap st)) in
  let input :=
    match map_get String.eqb properties "fc:frame:input:text" with
    | Some (String _ _ as t) => Some (mkFrameInput t)
    | _ => None
    end in
  let fallbackImageToUrl := is_empty imageUrl in
  let postUrlTooLong := Z.of_nat (utf16_length postUrl) >? 2048 in
  let inputTextTooLong := false in
  let valid := true in
  Frame.mk buttons imageUrl input postUrl version
    (Debug.mk buttons imageUrl input postUrl version
       (Scan.buttonsAreMissing st || Scan.buttonsAreOutOfOrder st)
       fallbackImageToUrl
       (map outerHTML metaTags)
       image inputTextTooLong (Scan.invalidButtons st) postUrlTooLong valid)
    title.

(** ** The intent encoder: [parseIntents] and [parseIntent] *)

Inductive Exception : Type := TypeError | URIError | SyntaxError.

(** How a call ends: with a value, or with a thrown exception. *)
Inductive Completion (A : Type) : Type :=
| Normal (a : A)
| Throw (e : Exception).
Arguments Normal {A} a.
Arguments Throw {A} e.

(** JavaScript data without functions: what props and text children hold. *)
Inductive Value : Type :=
| VUndefined
| VNull
| VBool (b : bool)
| VNumber (n : Z)
| VString (s : string)
| VArray (l : list Value).

(** An object literal; [{...o, k: v}] is [map_set String.eqb o k v]. *)
Definition Props : Type := list (string * Value).

Definition prop (props : Props) (k : string) : Value :=
  nullish (map_get String.eqb props k) VUndefined.

(** [!v] is [negb (truthy v)]. *)
Definition truthy (v : Value) : bool :=
  match v with
  | VUndefined | VNull => false
  | VBool b => b
  | VNumber n => negb (n =? 0)
  | VString s => negb (is_empty s)
  | VArray _ => true
  end.

(** [typeof v === 'object'] *)
Definition typeof_object (v : Value) : bool :=
  match v with
  | VNull | VArray _ => true
  | _ => false
  end.

Fixpoint join (sep : string) (l : list string) : string :=
  match l with
  | [] => ""
  | [s] => s
  | s :: l' => s ++ sep ++ join sep l'
  end.

(** [String(v)], as template literals and attribute rendering apply it. *)
Fixpoint Value_toString (v : Value) : string :=
  match v with
  | VUndefined => "undefined"
  | VNull => "null"
  | VBool true => "true"
  | VBool false => "false"
  | VNumber n => Z_to_string n
  | VString s => s
  | VArray l =>
      join ","
        (map (fun e =>
                match e with
                | VUndefined | VNull => ""
                | _ => Value_toString e
                end) l)
  end.

(** A JSX node [{ tag, props, children }].  The tag is a string (an
    intrinsic element), a function without [__type], or a function that
    carries a [__type]; the children of the latter are text, as
    [ButtonProps] declares them. *)
Inductive JSXNode : Type :=
| JSXElem (tag : string) (props : Props) (children : list Child)
| JSXFn (tag : Props -> option JSXNode) (props : Props)
    (children : list Child)
| JSXCap (__type : string) (tag : Props -> option JSXNode) (props : Props)
    (children : list Value)
with Child : Type :=
| ChildValue (v : Value)
| ChildNode (n : JSXNode).

(** [Intent = JSX.Element | false | null | undefined] *)
Definition Intent : Type := Child.

(** [Intents = Intent | Intent[]], the single intent being a node: the
    route only calls [parseIntents] on a truthy value. *)
Inductive Intents : Type :=
| IntentArray (l : list Intent)
| IntentNode (n : JSXNode).

(** *** Components *)

(** [function Button({ children, index = 0, value })] *)
Definition Button (props : Props) : option JSXNode :=
  let children := prop props "children" in
  let index :=
    match prop props "index" with
    | VUndefined => VNumber 0
    | v => v
    end in
  let value := prop props "value" in
  Some (JSXElem "meta"
          [ ("property", VString ("fc:frame:button:" ++ Value_toString index));
            ("content", children);
            ("data-value", value) ]
          []).

(** [function TextInput({ placeholder })] *)
Definition TextInput (props : Props) : option JSXNode :=
  Some (JSXElem "meta"
          [ ("property", VString "fc:frame:input:text");
            ("content", prop props "placeholder") ]
          []).

(** [<Button {...props}>{children}</Button>] *)
Definition ButtonNode (props : Props) (children : list Value) : JSXNode :=
  JSXCap "button" Button props children.

(** [<TextInput {...props} />] *)
Definition TextInputNode (props : Props) : JSXNode :=
  JSXCap "text-input" TextInput props [].

(** *** The traversal *)

Record Counter : Type := mkCounter { button : Z }.

(** A computation that reads and updates the shared counter and may throw. *)
Definition Enc (A : Type) : Type := Counter -> Completion (A * Counter).

Definition ret {A : Type} (a : A) : Enc A := fun c => Normal (a, c).

Definition throw {A : Type} (e : Exception) : Enc A := fun _ => Throw e.

Definition bind {A B : Type} (m : Enc A) (k : A -> Enc B) : Enc B :=
  fun c =>
    match m c with
    | Normal (a, c') => k a c'
    | Throw e => Throw e
    end.

Notation "x <- m ;; k" := (bind m (fun x => k))
  (at level 61, m at next level, right associativity).

(** [counter.button++] *)
Definition button_post_increment : Enc Z :=
  fun c => Normal (button c, mkCounter (button c + 1)).

(** [xs.map(f)] for an [f] that uses the counter, left to right. *)
Fixpoint mapM {A B : Type} (f : A -> Enc B) (l : list A) : Enc (list B) :=
  match l with
  | [] => ret []
  | a :: l' =>
      b <- f a ;;
      bs <- mapM f l' ;;
      ret (b :: bs)
  end.

(** [{ tag() {} }], which stands in for a falsy node. *)
Definition placeholder : JSXNode := JSXFn (fun _ => None) [] [].

Definition parseIntent (node_ : Intent) : Enc (option JSXNode) :=
  let node :=
    match node_ with
    | ChildValue v => if truthy v then node_ else ChildNode placeholder
    | ChildNode _ => node_
    end in
  match node with
  | ChildValue _ =>
      (* a truthy value that is no node: [node.tag] is undefined and
         reading its [__type] throws *)
      throw TypeError
  | ChildNode node =>
      match node with
      | JSXCap __type tag props children =>
          if String.eqb __type "button" then
            index <- button_post_increment ;;
            ret (tag (map_set String.eqb
                        (map_set String.eqb props "children" (VArray children))
                        "index" (VNumber index)))
          else if String.eqb __type "text-input" then
            ret (tag (map_set String.eqb props "children" (VArray children)))
          else ret (tag [])
      | JSXFn tag _ _ => ret (tag [])
      | JSXElem _ _ _ => ret (Some node)
      end
  end.

(** [node.children], text children seen as children. *)
Definition children_of (n : JSXNode) : list Child :=
  match n with
  | JSXElem _ _ children => children
  | JSXFn _ _ children => children
  | JSXCap _ _ _ children => map ChildValue children
  end.

(** [typeof children[0] === 'object'] *)
Definition first_child_is_object (children : list Child) : bool :=
  match children with
  | ChildNode _ :: _ => true
  | ChildValue v :: _ => typeof_object v
  | [] => false
  end.

(** The three shapes [parseIntents] returns.  [EncodedContainer n rs] is
    [Object.assign(n, { children: rs })]: the node [n] with [rs] as its
    children. *)
Inductive Encoded : Type :=
| EncodedArray (l : list (option JSXNode))
| EncodedContainer (n : JSXNode) (children : list (option JSXNode))
| EncodedSingle (r : option JSXNode).

Definition parseIntents_from (intents : Intents) : Enc Encoded :=
  match intents with
  | IntentArray l =>
      rs <- mapM parseIntent l ;;
      ret (EncodedArray rs)
  | IntentNode n =>
      if first_child_is_object (children_of n) then
        rs <- mapM parseIntent (children_of n) ;;
        ret (EncodedContainer n rs)
      else
        r <- parseIntent (ChildNode n) ;;
        ret (EncodedSingle r)
  end.

(** [const counter = { button: 1 }] and the traversal. *)
Definition parseIntents (intents : Intents) : Completion Encoded :=
  match parseIntents_from intents (mkCounter 1) with
  | Normal (r, _) => Normal r
  | Throw e => Throw e
  end.

(** ** The context token: [deserializeJson] *)

(** *** [decodeURIComponent]

    The input is read in two passes that together follow the [Decode]
    operation of ECMA-262: escapes [%XX] become octets, then every run of
    octets has to be well-formed UTF-8.  Any failure is a [URIError]. *)

Definition hex_value (c : ascii) : option Z :=
  let n := Z.of_nat (nat_of_ascii c) in
  if (48 <=? n) && (n <=? 57) then Some (n - 48)
  else if (65 <=? n) && (n <=? 70) then Some (n - 55)
  else if (97 <=? n) && (n <=? 102) then Some (n - 87)
  else None.

Inductive UriToken : Type :=
| Plain (c : ascii)
| Octet (b : Z).

Fixpoint uri_tokens (s : string) : Completion (list UriToken) :=
  match s with
  | EmptyString => Normal []
  | String c r =>
      if Ascii.eqb c "%" then
        match r with
        | String h (String l r') =>
            match hex_value h, hex_value l with
            | Some x, Some y =>
                match uri_tokens r' with
                | Normal ts => Normal (Octet (16 * x + y) :: ts)
                | Throw e => Throw e
                end
            | _, _ => Throw URIError
            end
        | _ => Throw URIError
        end
      else
        match uri_tokens r with
        | Normal ts => Normal (Plain c :: ts)
        | Throw e => Throw e
        end
  end.

Definition between (lo b hi : Z) : bool := (lo <=? b) && (b <=? hi).

Definition octet_char (b : Z) : ascii := ascii_of_nat (Z.to_nat b).

Definition octets_string (bs : list Z) : string :=
  fold_right (fun b s => String (octet_char b) s) EmptyString bs.

(** What a well-formed sequence [bs] contributes, before the rest. *)
Definition with_octets (bs : list Z) (rest : Completion string)
  : Completion string :=
  match rest with
  | Normal s => Normal (octets_string bs ++ s)%string
  | Throw e => Throw e
  end.

(** The second pass: an octet below 128 stands alone; a lead octet takes
    the one, two or three octets after it, which have to be in the ranges
    of well-formed UTF-8 (no overlong form, no surrogate, nothing above
    U+10FFFF). *)
Fixpoint uri_assemble (ts : list UriToken) : Completion string :=
  match ts with
  | [] => Normal EmptyString
  | Plain c :: r =>
      match uri_assemble r with
      | Normal s => Normal (String c s)
      | Throw e => Throw e
      end
  | Octet a :: r =>
      if a <? 128 then with_octets [a] (uri_assemble r)
      else
        match r with
        | Octet b :: r1 =>
            if between 194 a 223 then
              if between 128 b 191
              then with_octets [a; b] (uri_assemble r1)
              else Throw URIError
            else
              match r1 with
              | Octet c :: r2 =>
                  if between 224 a 239 then
                    if between (if a =? 224 then 160 else 128) b
                         (if a =? 237 then 159 else 191)
                       && between 128 c 191
                    then with_octets [a; b; c] (uri_assemble r2)
                    else Throw URIError
                  else
                    match r2 with
                    | Octet d :: r3 =>
                        if between 240 a 244
                           && between (if a =? 240 then 144 else 128) b
                                (if a =? 244 then 143 else 191)
                           && between 128 c 191 && between 128 d 191
                        then with_octets [a; b; c; d] (uri_assemble r3)
                        else Throw URIError
                    | _ => Throw URIError
                    end
              | _ => Throw URIError
              end
        | _ => Throw URIError
        end
  end.

Definition decodeURIComponent (s : string) : Completion string :=
  match uri_tokens s with
  | Normal ts => uri_assemble ts
  | Throw e => Throw e
  end.

(** *** [JSON.parse] *)

(** A parsed JSON text.  Numbers and strings keep their source text (for
    a string, what stands between the quotes); an object keeps its
    members as written. *)
Inductive Json : Type :=
| JNull
| JBool (b : bool)
| JNumber (lexeme : string)
| JString (raw : string)
| JArray (elements : list Json)
| JObject (members : list (string * Json)).

Definition is_json_ws (c : ascii) : bool :=
  existsb (Ascii.eqb c) [" "; "009"; "010"; "013"]%char.

Fixpoint skip_ws (s : string) : string :=
  match s with
  | String c r => if is_json_ws c then skip_ws r else s
  | EmptyString => s
  end.

(** [s] without its first character, when that character is [c]. *)
Definition eat (c : ascii) (s : string) : option string :=
  match s with
  | String c' r => if Ascii.eqb c c' then Some r else None
  | EmptyString => None
  end.

(** The longest run of digits at the head of [s], and what follows. *)
Fixpoint span_digits (s : string) : string * string :=
  match s with
  | String c r =>
      if is_digit c
      then let '(ds, r') := span_digits r in (String c ds, r')
      else (EmptyString, s)
  | EmptyString => (EmptyString, s)
  end.

(** One digit or more. *)
Definition parse_digits1 (s : string) : option (string * string) :=
  match span_digits s with
  | (EmptyString, _) => None
  | (ds, r) => Some (ds, r)
  end.

(** [[eE] [+-]? digits], after the [e]. *)
Definition parse_exponent (e : string) (s : string)
  : option (string * string) :=
  let '(sign, r) :=
    match eat "+" s, eat "-" s with
    | Some r, _ => ("+", r)
    | _, Some r => ("-", r)
    | _, _ => ("", s)
    end in
  match parse_digits1 r with
  | Some (ds, r') => Some ((e ++ sign ++ ds)%string, r')
  | None => None
  end.

(** A JSON number: an optional minus sign, an integer part without
    leading zero, an optional fraction, an optional exponent. *)
Definition parse_number (s : string) : option (string * string) :=
  let '(sign, s1) :=
    match eat "-" s with
    | Some r => ("-", r)
    | None => ("", s)
    end in
  let int_part :=
    match eat "0" s1 with
    | Some r => Some ("0", r)
    | None => parse_digits1 s1
    end in
  match int_part with
  | None => None
  | Some (ip, s2) =>
      let frac_part :=
        match eat "." s2 with
        | Some r =>
            match parse_digits1 r with
            | Some (ds, r') => Some (("." ++ ds)%string, r')
            | None => None
            end
        | None => Some ("", s2)
        end in
      match frac_part with
      | None => None
      | Some (fp, s3) =>
          let exp_part :=
            match eat "e" s3, eat "E" s3 with
            | Some r, _ => parse_exponent "e" r
            | _, Some r => parse_exponent "E" r
            | _, _ => Some ("", s3)
            end in
          match exp_part with
          | None => None
          | Some (ep, s4) => Some ((sign ++ ip ++ fp ++ ep)%string, s4)
          end
      end
  end.

Definition is_hex (c : ascii) : bool :=
  match hex_value c with
  | Some _ => true
  | None => false
  end.

(** The body of a string literal up to its closing quote. *)
Fixpoint parse_string_body (s : string) : option (string * string) :=
  match s with
  | EmptyString => None
  | String c r =>
      if Ascii.eqb c "034" then Some (EmptyString, r)
      else if Ascii.eqb c "\" then
        match r with
        | String e r1 =>
            if Ascii.eqb e "u" then
              match r1 with
              | String h1 (String h2 (String h3 (String h4 r2))) =>
                  if is_hex h1 && is_hex h2 && is_hex h3 && is_hex h4 then
                    match parse_string_body r2 with
                    | Some (body, r') =>
                        Some (String c (String e (String h1 (String h2
                                (String h3 (String h4 body))))), r')
                    | None => None
                    end
                  else None
              | _ => None
              end
            else if existsb (Ascii.eqb e)
                      ["034"; "\"; "/"; "b"; "f"; "n"; "r"; "t"]%char
            then
              match parse_string_body r1 with
              | Some (body, r') => Some (String c (String e body), r')
              | None => None
              end
            else None
        | EmptyString => None
        end
      else if (nat_of_ascii c <? 32)%nat then None
      else
        match parse_string_body r with
        | Some (body, r') => Some (String c body, r')
        | None => None
        end
  end.

(** [null], [true], [false] or a number. *)
Definition parse_literal (s : string) : option (Json * string) :=
  match strip_prefix "null" s, strip_prefix "true" s,
        strip_prefix "false" s with
  | Some r, _, _ => Some (JNull, r)
  | _, Some r, _ => Some (JBool true, r)
  | _, _, Some r => Some (JBool false, r)
  | _, _, _ =>
      match parse_number s with
      | Some (lexeme, r) => Some (JNumber lexeme, r)
      | None => None
      end
  end.

Fixpoint parse_value (fuel : nat) (s : string) : option (Json * string) :=
  match fuel with
  | O => None
  | S fuel' =>
      let s1 := skip_ws s in
      match eat "{" s1, eat "[" s1, eat "034" s1 with
      | Some r, _, _ =>
          match eat "}" (skip_ws r) with
          | Some r' => Some (JObject [], r')
          | None =>
              match parse_members fuel' r with
              | Some (ms, r') => Some (JObject ms, r')
              | None => None
              end
          end
      | _, Some r, _ =>
          match eat "]" (skip_ws r) with
          | Some r' => Some (JArray [], r')
          | None =>
              match parse_elements fuel' r with
              | Some (es, r') => Some (JArray es, r')
              | None => None
              end
          end
      | _, _, Some r =>
          match parse_string_body r with
          | Some (body, r') => Some (JString body, r')
          | None => None
          end
      | _, _, _ => parse_literal s1
      end
  end

(** The members of an object after its opening brace. *)
with parse_members (fuel : nat) (s : string)
  : option (list (string * Json) * string) :=
  match fuel with
  | O => None
  | S fuel' =>
      match eat "034" (skip_ws s) with
      | Some r =>
          match parse_string_body r with
          | Some (key, r1) =>
              match eat ":" (skip_ws r1) with
              | Some r2 =>
                  match parse_value fuel' r2 with
                  | Some (v, r3) =>
                      match eat "}" (skip_ws r3), eat "," (skip_ws r3) with
                      | Some r4, _ => Some ([(key, v)], r4)
                      | _, Some r4 =>
                          match parse_members fuel' r4 with
                          | Some (ms, r5) => Some ((key, v) :: ms, r5)
                          | None => None
                          end
                      | _, _ => None
                      end
                  | None => None
                  end
              | None => None
              end
          | None => None
          end
      | None => None
      end
  end

(** The elements of an array after its opening bracket. *)
with parse_elements (fuel : nat) (s : string)
  : option (list Json * string) :=
  match fuel with
  | O => None
  | S fuel' =>
      match parse_value fuel' s with
      | Some (v, r) =>
          match eat "]" (skip_ws r), eat "," (skip_ws r) with
          | Some r1, _ => Some ([v], r1)
          | _, Some r1 =>
              match parse_elements fuel' r1 with
              | Some (vs, r2) => Some (v :: vs, r2)
              | None => None
              end
          | _, _ => None
          end
      | None => None
      end
  end.

(** [JSON.parse(text)]: one value, surrounded by white space only.  The
    parser reads a character for every two units of fuel it uses, so the
    fuel given here is never used up ([parse_value_fuel] below). *)
Definition JSON_parse (text : string) : Completion Json :=
  match parse_value (2 * String.length text + 2) text with
  | Some (v, r) =>
      match skip_ws r with
      | EmptyString => Normal v
      | _ => Throw SyntaxError
      end
  | None => Throw SyntaxError
  end.

(** [function deserializeJson(data = '{}')] *)
Definition deserializeJson (data : option string) : Completion Json :=
  match decodeURIComponent (nullish data "{}") with
  | Normal s => JSON_parse s
  | Throw e => Throw e
  end.

(** ** URLs: [toBaseUrl] and the URLs the frame route writes *)

(** [s.split('?')[0]] *)
Fixpoint before_question_mark (s : string) : string :=
  match s with
  | EmptyString => EmptyString
  | String c r =>
      if Ascii.eqb c "?" then EmptyString
      else String c (before_question_mark r)
  end.

(** [s.endsWith(suffix)] *)
Fixpoint endsWith (s suffix : string) : bool :=
  String.eqb s suffix
  || match s with
     | String _ r => endsWith r suffix
     | EmptyString => false
     end.

(** [s.slice(0, -1)] *)
Fixpoint slice_but_last (s : string) : string :=
  match s with
  | EmptyString => EmptyString
  | String c r =>
      match r with
      | EmptyString => EmptyString
      | _ => String c (slice_but_last r)
      end
  end.

Definition toBaseUrl (path_ : string) : string :=
  let path := before_question_mark path_ in
  if endsWith path "/" then slice_but_last path else path.

(** A template literal's [${x}] for an [x] that may be [undefined]. *)
Definition template_text (x : option string) : string :=
  match x with
  | Some s => s
  | None => "undefined"
  end.

(** The content of the [fc:frame:image] and [og:image] tags of the frame
    route. *)
Definition frame_image_url (context_url serializedContext : string)
    (previousContext : option string) : string :=
  (toBaseUrl context_url ++ "/image?context=" ++ serializedContext
   ++ "&previousContext=" ++ template_text previousContext)%string.

(** The content of the [fc:frame:post_url] tag of the frame route. *)
Definition frame_post_url (context_url serializedContext : string) : string :=
  (toBaseUrl context_url ++ "?previousContext=" ++ serializedContext)%string.

(** ** [serializeJson] *)

(** *** [encodeURIComponent]

    The argument stands for a JavaScript string through its UTF-8
    encoding; every octet that is not an unreserved character is written
    as [%XX], in upper case. *)

Definition is_unreserved (c : ascii) : bool :=
  let n := nat_of_ascii c in
  ((65 <=? n) && (n <=? 90))%nat
  || ((97 <=? n) && (n <=? 122))%nat
  || ((48 <=? n) && (n <=? 57))%nat
  || existsb (Ascii.eqb c) ["-"; "_"; "."; "!"; "~"; "*"; "'"; "("; ")"]%char.

Definition hex_digit (n : nat) : ascii :=
  if (n <? 10)%nat then ascii_of_nat (48 + n) else ascii_of_nat (55 + n).

Definition percent_escape (c : ascii) : string :=
  let n := nat_of_ascii c in
  String "%" (String (hex_digit (n / 16)) (String (hex_digit (n mod 16))
    EmptyString)).

Fixpoint encodeURIComponent (s : string) : string :=
  match s with
  | EmptyString => EmptyString
  | String c r =>
      ((if is_unreserved c then String c EmptyString else percent_escape c)
       ++ encodeURIComponent r)%string
  end.

(** [function serializeJson(data = {})].  [JSON.stringify] is taken as
    given, with the value [{}] it is applied to by default. *)
Section SerializeJson.
Context {Data : Type} (JSON_stringify : Data -> string) (empty_object : Data).

Definition serializeJson (data : option Data) : string :=
  encodeURIComponent (JSON_stringify (nullish data empty_object)).
End SerializeJson.

(** * Vocabulary of the properties *)

(** ** Decoder *)

(** The text a match array stands for, from the start of the match. *)
Definition matched_text (m : MatchArray) : string :=
  ("fc:frame:button:" ++ group1 m ++
   match group2 m with
   | Some g => ":" ++ g
   | None => ""
   end)%string.

(** The property strings the pattern is meant for. *)
Definition button_property (n : Z) (suffix : option string) : string :=
  ("fc:frame:button:" ++ Z_to_string n ++
   match suffix with
   | Some g => ":" ++ g
   | None => ""
   end)%string.

Definition valid_suffix (suffix : option string) : Prop :=
  suffix = None \/ suffix = Some "action" \/ suffix = Some "target".

(** What the loop body does with a tag, as a value. *)
Inductive TagKind : Type :=
| Skipped
| NamedProperty (name content : string)
| ButtonAction (index : Z) (content : string)
| PlainButton (index : Z) (content : string).

Definition classify (metaTag : HTMLMetaElement) : TagKind :=
  match attr_property metaTag with
  | None => Skipped
  | Some EmptyString => Skipped
  | Some property =>
      let content := nullish (attr_content metaTag) "" in
      if validPropertyNames_has property then NamedProperty property content
      else
        match buttonRegex_match property with
        | Some m =>
            match parseInt (group1 m), group2 m with
            | Some index, Some _ => ButtonAction index content
            | Some index, None => PlainButton index content
            | None, _ => Skipped
            end
        | None => Skipped
        end
  end.

Definition apply_kind (k : TagKind) (st : Scan.state) : Scan.state :=
  match k with
  | Skipped => st
  | NamedProperty name content => scan_property name content st
  | ButtonAction index content => scan_action index content st
  | PlainButton index content => scan_button index content st
  end.

(** The indices of the plain button tags of a document, in document
    order. *)
Definition plain_button_indices (metaTags : list HTMLMetaElement) : list Z :=
  flat_map (fun t =>
              match classify t with
              | PlainButton i _ => [i]
              | _ => []
              end) metaTags.

(** The part of the scan state that the ordering check reads and writes:
    [currentButtonIndex], [buttonsAreMissing], [buttonsAreOutOfOrder],
    [invalidButtons]. *)
Definition OrderView : Type := (Z * bool * bool * list Z)%type.

Definition order_view (st : Scan.state) : OrderView :=
  (Scan.currentButtonIndex st, Scan.buttonsAreMissing st,
   Scan.buttonsAreOutOfOrder st, Scan.invalidButtons st).

Definition order_step (v : OrderView) (i : Z) : OrderView :=
  let '(current, missing, out_of_order, invalid) := v in
  let out_of_order' := if current >=? i then true else out_of_order in
  let '(current', missing') :=
    if current + 1 =? i then (i, missing) else (current, true) in
  (current', missing', out_of_order',
   if out_of_order' || missing' then invalid ++ [i] else invalid).

(** The indices 1, 2, ..., k. *)
Definition indices_up_to (k : nat) : list Z := map Z.of_nat (seq 1 k).

Definition lt_index (a b : FrameButton) : Prop := index a < index b.

(** The contents of the [fc:frame:image] tags of a document, in document
    order; an absent [content] attribute counts as empty. *)
Definition frame_image_contents (metaTags : list HTMLMetaElement)
  : list string :=
  flat_map (fun t =>
              match attr_property t with
              | Some p =>
                  if String.eqb p "fc:frame:image"
                  then [nullish (attr_content t) ""]
                  else []
              | None => []
              end) metaTags.

Definition has_property (name : string) (t : HTMLMetaElement) : bool :=
  match attr_property t with
  | Some p => String.eqb p name
  | None => false
  end.

(** A [<meta property=p content=c>] element. *)
Definition meta (p c : string) : HTMLMetaElement :=
  let q := String "034" EmptyString in
  mkMeta (Some p) (Some c)
    ("<meta property=" ++ q ++ p ++ q ++ " content=" ++ q ++ c ++ q ++ ">").

(** The button map holds each index once, and under each index an entry
    for that index. *)
Definition buttonMap_ok (buttonMap : list (Z * ButtonEntry)) : Prop :=
  NoDup (map fst buttonMap)
  /\ Forall (fun p => entry_index (snd p) = fst p) buttonMap.

(** ** Encoder *)

(** The intents [parseIntents] hands to [parseIntent], in order: the
    elements of an array, the children of a container, or the node
    itself. *)
Definition traversed (intents : Intents) : list Intent :=
  match intents with
  | IntentArray l => l
  | IntentNode n =>
      if first_child_is_object (children_of n) then children_of n
      else [ChildNode n]
  end.

(** What [parseIntent] returned for them, in the same order. *)
Definition outputs (encoded : Encoded) : list (option JSXNode) :=
  match encoded with
  | EncodedArray l => l
  | EncodedContainer _ children => children
  | EncodedSingle r => [r]
  end.

(** The [__type] of a node's tag, if it has one. *)
Definition capability (n : JSXNode) : option string :=
  match n with
  | JSXCap __type _ _ _ => Some __type
  | _ => None
  end.

Definition is_button_node (i : Intent) : bool :=
  match i with
  | ChildNode n =>
      match capability n with
      | Some ty => String.eqb ty "button"
      | None => false
      end
  | ChildValue _ => false
  end.

(** How many of the intents carry the [button] tag. *)
Definition count_buttons (l : list Intent) : Z :=
  Z.of_nat (List.length (filter is_button_node l)).

(** [{ ...props, children, index }] *)
Definition button_props (props : Props) (children : list Value) (index : Z)
  : Props :=
  map_set String.eqb
    (map_set String.eqb props "children" (VArray children))
    "index" (VNumber index).

(** [{ ...props, children }] *)
Definition text_input_props (props : Props) (children : list Value) : Props :=
  map_set String.eqb props "children" (VArray children).

(** ** From the encoder's output to the decoder's input

    The page is rendered to HTML and parsed again outside this file; of
    that round trip the properties only use that an attribute holding
    [undefined] or [null] is left out and any other value is written as
    its string. *)
Definition attribute (v : Value) : option string :=
  match v with
  | VUndefined | VNull => None
  | _ => Some (Value_toString v)
  end.

(** [m] is the [<meta>] element that the output [r] renders to. *)
Definition rendered_as (r : option JSXNode) (m : HTMLMetaElement) : Prop :=
  match r with
  | Some (JSXElem tag props _) =>
      tag = "meta"
      /\ attr_property m = attribute (prop props "property")
      /\ attr_content m = attribute (prop props "content")
  | _ => False
  end.

(** ** Context token *)

(** [s] begins with two hexadecimal digits: what has to follow a [%]. *)
Definition starts_with_hex_pair (s : string) : bool :=
  match s with
  | String h (String l _) =>
      match hex_value h, hex_value l with
      | Some _, Some _ => true
      | _, _ => false
      end
  | _ => false
  end.

(** ** Further vocabulary *)

(** The contents of the tags of a document whose [property] is [name],
    in document order; an absent [content] attribute counts as empty. *)
Definition property_contents (name : string)
    (metaTags : list HTMLMetaElement) : list string :=
  flat_map (fun t =>
              match attr_property t with
              | Some p =>
                  if String.eqb p name
                  then [nullish (attr_content t) ""]
                  else []
              | None => []
              end) metaTags.

(** The tags the loop body passes over. *)
Definition is_skipped (t : HTMLMetaElement) : bool :=
  match classify t with
  | Skipped => true
  | _ => false
  end.

(** [{ ...frame, debug: { ...frame.debug, htmlTags } }] *)
Definition with_htmlTags (htmlTags : list string) (f : Frame.t) : Frame.t :=
  let d := Frame.debug f in
  Frame.mk (Frame.buttons f) (Frame.imageUrl f) (Frame.input f)
    (Frame.postUrl f) (Frame.version f)
    (Debug.mk (Debug.buttons d) (Debug.imageUrl d) (Debug.input d)
       (Debug.postUrl d) (Debug.version d) (Debug.buttonsAreOutOfOrder d)
       (Debug.fallbackImageToUrl d) htmlTags (Debug.image d)
       (Debug.inputTextTooLong d) (Debug.invalidButtons d)
       (Debug.postUrlTooLong d) (Debug.valid d))
    (Frame.title f).

(** A value that is truthy and no node: [parseIntent] cannot read its
    tag. *)
Definition is_bad_intent (x : Intent) : bool :=
  match x with
  | ChildValue v => truthy v
  | ChildNode _ => false
  end.

(** The intents of an array of button nodes, each given by its props and
    its children. *)
Definition button_intents (nodes : list (Props * list Value)) : list Intent :=
  map (fun pc => ChildNode (ButtonNode (fst pc) (snd pc))) nodes.

(** What [Button] returns for them when the counter starts at [k]. *)
Fixpoint encoded_buttons (k : Z) (nodes : list (Props * list Value))
  : list (option JSXNode) :=
  match nodes with
  | [] => []
  | pc :: rest =>
      Button (button_props (fst pc) (snd pc) k) :: encoded_buttons (k + 1) rest
  end.

(** The buttons a decoder should find for them: numbered from [k], with
    the text of the node as title, of type [post]. *)
Fixpoint numbered_buttons (k : Z) (nodes : list (Props * list Value))
  : list FrameButton :=
  match nodes with
  | [] => []
  | pc :: rest =>
      mkFrameButton k (TitleString (Value_toString (VArray (snd pc)))) "post"
      :: numbered_buttons (k + 1) rest
  end.

Definition all_digits (s : string) : Prop :=
  Forall (fun c => is_digit c = true) (list_ascii_of_string s).

(** [s] has no question mark. *)
Definition no_question_mark (s : string) : Prop :=
  ~ In "?"%char (list_ascii_of_string s).

(** The octet a character of a UTF-8 text stands for. *)
Definition octet_of (c : ascii) : Z := Z.of_nat (nat_of_ascii c).

(** Well-formed UTF-8: the encodings of the strings without a lone
    surrogate. *)
Inductive Utf8 : string -> Prop :=
| Utf8_nil : Utf8 EmptyString
| Utf8_1 (a : ascii) (r : string) :
    (octet_of a <? 128) = true -> Utf8 r -> Utf8 (String a r)
| Utf8_2 (a b : ascii) (r : string) :
    between 194 (octet_of a) 223 = true ->
    between 128 (octet_of b) 191 = true ->
    Utf8 r -> Utf8 (String a (String b r))
| Utf8_3 (a b c : ascii) (r : string) :
    between 224 (octet_of a) 239 = true ->
    between (if octet_of a =? 224 then 160 else 128) (octet_of b)
      (if octet_of a =? 237 then 159 else 191) = true ->
    between 128 (octet_of c) 191 = true ->
    Utf8 r -> Utf8 (String a (String b (String c r)))
| Utf8_4 (a b c d : ascii) (r : string) :
    between 240 (octet_of a) 244 = true ->
    between (if octet_of a =? 240 then 144 else 128) (octet_of b)
      (if octet_of a =? 244 then 143 else 191) = true ->
    between 128 (octet_of c) 191 = true ->
    between 128 (octet_of d) 191 = true ->
    Utf8 r -> Utf8 (String a (String b (String c (String d r)))).

(** The tokens [decodeURIComponent] reads back from an encoded text. *)
Fixpoint encoded_tokens (s : string) : list UriToken :=
  match s with
  | EmptyString => []
  | String c r =>
      (if is_unreserved c then Plain c else Octet (octet_of c))
      :: encoded_tokens r
  end.

(** ** The head of the frame page *)

(** [<meta property=... content=... />] *)
Definition meta_element (property content : string) : JSXNode :=
  JSXElem "meta"
    [("property", VString property); ("content", VString content)] [].

(** The four meta elements the frame route writes in [<head>]. *)
Definition frame_fixed_metas (context_url serializedContext : string)
    (previousContext : option string) : list JSXNode :=
  let image_url :=
    frame_image_url context_url serializedContext previousContext in
  [ meta_element "fc:frame" "vNext";
    meta_element "fc:frame:image" image_url;
    meta_element "og:image" image_url;
    meta_element "fc:frame:post_url"
      (frame_post_url context_url serializedContext) ].

(** The children of [<head>] in the frame route: the four meta elements,
    then one more child, [intents ? parseIntents(intents) : null] -
    what [parseIntents] returned as it returned it (an array, the
    container node or a single output), or nothing when the handler gave
    no intents. *)
Definition frame_head (context_url serializedContext : string)
    (previousContext : option string) (intents : option Intents)
  : Completion (list JSXNode * option Encoded) :=
  let fixed :=
    frame_fixed_metas context_url serializedContext previousContext in
  match intents with
  | None => Normal (fixed, None)
  | Some i =>
      match parseIntents i with
      | Normal encoded => Normal (fixed, Some encoded)
      | Throw e => Throw e
      end
  end.

(** A meta element with the attributes the output [r] renders to. *)
Definition meta_of_output (r : option JSXNode) : HTMLMetaElement :=
  match r with
  | Some (JSXElem _ props _) =>
      mkMeta (attribute (prop props "property"))
        (attribute (prop props "content")) ""
  | _ => mkMeta None None ""
  end.

(** [s.repeat(n)] *)
Fixpoint repeat_text (s : string) (n : nat) : string :=
  match n with
  | O => ""
  | S k => s ++ repeat_text s k
  end.

(** * Properties *)

(** ** Strings and the button pattern *)

Lemma length_append (s t : string) :
  String.length (s ++ t) = (String.length s + String.length t)%nat.
Proof.
  induction s as [|c s IH]; simpl; [reflexivity | now rewrite IH].
Qed.

Lemma strip_prefix_append (p r : string) : strip_prefix p (p ++ r) = Some r.
Proof.
  induction p as [|c p IH]; simpl; [reflexivity|].
  now rewrite Ascii.eqb_refl.
Qed.

Lemma strip_prefix_inv (p s r : string) :
  strip_prefix p s = Some r -> s = (p ++ r)%string.
Proof.
  revert s; induction p as [|c p IH]; simpl; intros s H.
  - now injection H.
  - destruct s as [|b s]; [discriminate|].
    destruct (Ascii.eqb c b) eqn:E; [|discriminate].
    apply Ascii.eqb_eq in E; subst b.
    now rewrite (IH _ H).
Qed.

Lemma match_index_group_inv (s g r : string) :
  match_index_group s = Some (g, r) ->
  s = (g ++ r)%string /\ In g ["1"; "2"; "3"; "4"]%string.
Proof.
  destruct s as [|c s]; simpl; [discriminate|].
  destruct (Ascii.eqb_spec c "1"); [subst; intros [= <- <-]; simpl; auto|].
  destruct (Ascii.eqb_spec c "2"); [subst; intros [= <- <-]; simpl; auto|].
  destruct (Ascii.eqb_spec c "3"); [subst; intros [= <- <-]; simpl; auto|].
  destruct (Ascii.eqb_spec c "4"); [subst; intros [= <- <-]; simpl; tauto|].
  discriminate.
Qed.

Lemma match_suffix_group_inv (s g : string) :
  match_suffix_group s = Some g ->
  s = (":" ++ g)%string /\ (g = "action" \/ g = "target").
Proof.
  unfold match_suffix_group.
  destruct (strip_prefix ":" s) as [r|] eqn:E; [|discriminate].
  apply strip_prefix_inv in E; subst s.
  destruct (strip_prefix "action" r) as [[|? ?]|] eqn:Ea.
  - intros [= <-]. apply strip_prefix_inv in Ea. subst r. auto.
  - destruct (strip_prefix "target" r) as [[|? ?]|] eqn:Et;
      try discriminate.
    intros [= <-]. apply strip_prefix_inv in Et. subst r. auto.
  - destruct (strip_prefix "target" r) as [[|? ?]|] eqn:Et;
      try discriminate.
    intros [= <-]. apply strip_prefix_inv in Et. subst r. auto.
Qed.

(** A match at the head of [s] spans the whole of [s]. *)
Lemma match_here_inv (s : string) (m : MatchArray) :
  match_here s = Some m ->
  s = matched_text m
  /\ In (group1 m) ["1"; "2"; "3"; "4"]%string
  /\ In (group2 m) [None; Some "action"; Some "target"].
Proof.
  unfold match_here, matched_text.
  destruct (strip_prefix "fc:frame:button:" s) as [r1|] eqn:E1;
    [|discriminate].
  apply strip_prefix_inv in E1; subst s.
  destruct (match_index_group r1) as [[g1 r2]|] eqn:E2; [|discriminate].
  apply match_index_group_inv in E2 as [-> Hg1].
  destruct (match_suffix_group r2) as [g2|] eqn:E3.
  - apply match_suffix_group_inv in E3 as [-> Hg2].
    intros [= <-]; simpl. repeat split; auto.
    destruct Hg2 as [-> | ->]; auto.
  - destruct r2; [|discriminate].
    intros [= <-]; simpl. repeat split; auto.
Qed.

Lemma matched_text_length (m : MatchArray) :
  In (group1 m) ["1"; "2"; "3"; "4"]%string ->
  In (group2 m) [None; Some "action"; Some "target"] ->
  String.length (matched_text m) = 17%nat
  \/ String.length (matched_text m) = 24%nat.
Proof.
  unfold matched_text. destruct m as [g1 g2]; simpl.
  intros [<-|[<-|[<-|[<-|[]]]]] [<-|[<-|[<-|[]]]]; simpl; auto.
Qed.

Lemma button_property_match_here (n : Z) (suffix : option string) :
  1 <= n <= 4 -> valid_suffix suffix ->
  match_here (button_property n suffix)
  = Some (mkMatch (Z_to_string n) suffix).
Proof.
  intros Hn Hs.
  assert (n = 1 \/ n = 2 \/ n = 3 \/ n = 4) as [->|[->|[->| ->]]] by lia;
    destruct Hs as [->|[->| ->]]; reflexivity.
Qed.

(** No earlier start position matches: a match has to reach the end of
    the input, and only one suffix of the input has the right shape. *)
Lemma match_here_longer (c : ascii) (pre : string) (n : Z)
    (suffix : option string) :
  1 <= n <= 4 -> valid_suffix suffix ->
  match_here (String c (pre ++ button_property n suffix)) = None.
Proof.
  intros Hn Hs.
  destruct (match_here (String c (pre ++ button_property n suffix)))
    as [m|] eqn:E; [|reflexivity].
  exfalso.
  apply match_here_inv in E as (E & H1 & H2).
  pose proof (matched_text_length m H1 H2) as Hlen.
  rewrite <- E in Hlen. simpl in Hlen. rewrite length_append in Hlen.
  assert (Hp : String.length (button_property n suffix) = 17%nat
               \/ String.length (button_property n suffix) = 24%nat).
  { assert (n = 1 \/ n = 2 \/ n = 3 \/ n = 4) as [->|[->|[->| ->]]] by lia;
      destruct Hs as [->|[->| ->]]; simpl; auto. }
  assert (Hpre : String.length pre = 6%nat
                 /\ String.length (button_property n suffix) = 17%nat)
    by lia.
  destruct Hpre as [Hpre Hp17].
  assert (Hm : String.length (matched_text m) = 24%nat).
  { rewrite <- E. simpl. rewrite length_append. lia. }
  destruct pre as [|a1 [|a2 [|a3 [|a4 [|a5 [|a6 [|a7 pre]]]]]]];
    try discriminate Hpre.
  unfold matched_text in E. simpl in E.
  unfold button_property in E.
  injection E as _ _ _ _ _ _ _ E. discriminate E.
Qed.

Lemma buttonRegex_match_eq (s : string) :
  buttonRegex_match s =
  match match_here s with
  | Some m => Some m
  | None =>
      match s with
      | String _ s' => buttonRegex_match s'
      | EmptyString => None
      end
  end.
Proof. destruct s; reflexivity. Qed.

(** [buttonRegex] finds its match at the end of the property, whatever
    precedes it. *)
Lemma buttonRegex_match_suffix (pre : string) (n : Z)
    (suffix : option string) :
  1 <= n <= 4 -> valid_suffix suffix ->
  buttonRegex_match (pre ++ button_property n suffix)
  = Some (mkMatch (Z_to_string n) suffix).
Proof.
  intros Hn Hs. induction pre as [|c pre IH].
  - simpl append. rewrite buttonRegex_match_eq.
    now rewrite button_property_match_here.
  - change (String c pre ++ button_property n suffix)%string
      with (String c (pre ++ button_property n suffix)).
    rewrite buttonRegex_match_eq.
    now rewrite match_here_longer.
Qed.

Lemma parseInt_index (n : Z) :
  1 <= n <= 4 -> parseInt (Z_to_string n) = Some n.
Proof.
  intros Hn.
  assert (n = 1 \/ n = 2 \/ n = 3 \/ n = 4) as [->|[->|[->| ->]]] by lia;
    reflexivity.
Qed.

(** Whatever [buttonRegex] captures in its first group, [parseInt] reads
    it as an index between 1 and 4. *)
Lemma buttonRegex_match_inv (s : string) (m : MatchArray) :
  buttonRegex_match s = Some m ->
  exists index, parseInt (group1 m) = Some index /\ 1 <= index <= 4.
Proof.
  induction s as [|c s IH].
  - simpl. discriminate.
  - rewrite buttonRegex_match_eq.
    destruct (match_here (String c s)) as [m'|] eqn:E.
    + intros [= <-]. apply match_here_inv in E as (_ & H1 & _).
      destruct H1 as [<-|[<-|[<-|[<-|[]]]]];
        [exists 1 | exists 2 | exists 3 | exists 4]; split;
        try reflexivity; lia.
    + exact IH.
Qed.

Lemma append_not_valid_name (pre : string) (n : Z)
    (suffix : option string) :
  1 <= n <= 4 -> valid_suffix suffix ->
  validPropertyNames_has (pre ++ button_property n suffix) = false.
Proof.
  intros Hn Hs.
  destruct (validPropertyNames_has (pre ++ button_property n suffix))
    eqn:E; [|reflexivity].
  exfalso. unfold validPropertyNames_has in E.
  apply existsb_exists in E as (name & Hin & Heq).
  apply String.eqb_eq in Heq.
  pose proof (f_equal String.length Heq) as Hlen.
  rewrite length_append in Hlen.
  assert (n = 1 \/ n = 2 \/ n = 3 \/ n = 4) as Hn' by lia.
  unfold validPropertyNames in Hin. simpl in Hin.
  destruct Hin as [<-|[<-|[<-|[<-|[<-|[<-|[]]]]]]];
    destruct Hn' as [->|[->|[->| ->]]];
    destruct Hs as [->|[->| ->]];
    simpl in Hlen; try lia;
    destruct pre as [|a1 [|a2 [|a3 pre]]]; simpl in Hlen; try lia;
    discriminate Heq.
Qed.

(** ** The scan, tag by tag *)

Lemma scan_tag_classify (st : Scan.state) (metaTag : HTMLMetaElement) :
  scan_tag st metaTag = apply_kind (classify metaTag) st.
Proof.
  unfold scan_tag, classify, buttonRegex_test.
  destruct (attr_property metaTag) as [[|c p]|]; try reflexivity.
  destruct (validPropertyNames_has (String c p)); [reflexivity|].
  destruct (buttonRegex_match (String c p)) as [m|]; [|reflexivity].
  destruct (parseInt (group1 m)); [|reflexivity].
  destruct (group2 m); reflexivity.
Qed.

Lemma classify_button_property (pre : string) (n : Z)
    (suffix : option string) (content : option string) (html : string) :
  1 <= n <= 4 -> valid_suffix suffix ->
  classify (mkMeta (Some (pre ++ button_property n suffix)%string) content html)
  = match suffix with
    | Some _ => ButtonAction n (nullish content "")
    | None => PlainButton n (nullish content "")
    end.
Proof.
  intros Hn Hs. unfold classify. simpl attr_property. simpl attr_content.
  destruct (pre ++ button_property n suffix)%string as [|c p] eqn:E.
  - exfalso. apply (f_equal String.length) in E.
    rewrite length_append in E. unfold button_property in E.
    simpl in E. lia.
  - rewrite <- E.
    rewrite (append_not_valid_name pre n suffix Hn Hs).
    rewrite (buttonRegex_match_suffix pre n suffix Hn Hs).
    simpl group1. simpl group2. rewrite (parseInt_index n Hn).
    destruct suffix; reflexivity.
Qed.

Lemma scan_button_order (i : Z) (content : string) (st : Scan.state) :
  order_view (scan_button i content st) = order_step (order_view st) i.
Proof.
  unfold order_view, order_step, scan_button.
  destruct (Scan.currentButtonIndex st >=? i);
    destruct (Scan.currentButtonIndex st + 1 =? i); reflexivity.
Qed.

Lemma apply_kind_order (k : TagKind) (st : Scan.state) :
  order_view (apply_kind k st)
  = match k with
    | PlainButton i _ => order_step (order_view st) i
    | _ => order_view st
    end.
Proof.
  destruct k; try reflexivity. apply scan_button_order.
Qed.

(** The ordering diagnostics only depend on the sequence of plain button
    indices. *)
Lemma scan_order_view (metaTags : list HTMLMetaElement) (st : Scan.state) :
  order_view (fold_left scan_tag metaTags st)
  = fold_left order_step (plain_button_indices metaTags) (order_view st).
Proof.
  revert st. induction metaTags as [|t l IH]; intros st; [reflexivity|].
  simpl fold_left at 1. rewrite IH. unfold plain_button_indices. simpl flat_map.
  rewrite fold_left_app. f_equal.
  rewrite scan_tag_classify, apply_kind_order.
  destruct (classify t); reflexivity.
Qed.

Lemma htmlToFrame_order (metaTags : list HTMLMetaElement) :
  forall current missing out_of_order invalid,
  fold_left order_step (plain_button_indices metaTags) (0, false, false, [])
  = (current, missing, out_of_order, invalid) ->
  Debug.buttonsAreOutOfOrder (Frame.debug (htmlToFrame metaTags))
  = missing || out_of_order
  /\ Debug.invalidButtons (Frame.debug (htmlToFrame metaTags)) = invalid.
Proof.
  intros current missing out_of_order invalid H.
  pose proof (scan_order_view metaTags Scan.init) as Hv.
  change (order_view Scan.init) with ((0, false, false, []) : OrderView) in Hv.
  rewrite H in Hv. unfold order_view in Hv. fold (scan metaTags) in Hv.
  injection Hv as H1 H2 H3 H4.
  unfold htmlToFrame. simpl. now rewrite H2, H3, H4.
Qed.

Lemma order_step_increasing (k : nat) : forall (a : nat) (invalid : list Z),
  fold_left order_step (map Z.of_nat (seq (S a) k))
    (Z.of_nat a, false, false, invalid)
  = (Z.of_nat (a + k), false, false, invalid).
Proof.
  induction k as [|k IH]; intros a invalid; simpl.
  - now rewrite Nat.add_0_r.
  - replace (Z.of_nat a + 1 =? Z.pos (Pos.of_succ_nat a)) with true
      by (symmetry; apply Z.eqb_eq; lia).
    replace (Z.of_nat a >=? Z.pos (Pos.of_succ_nat a)) with false
      by (symmetry; rewrite Z.geb_leb; apply Z.leb_gt; lia).
    simpl.
    change (Z.pos (Pos.of_succ_nat a)) with (Z.of_nat (S a)).
    rewrite IH. do 3 f_equal. lia.
Qed.

(** ** Maps *)

Section OrderedMapFacts.
Context {K V : Type} (eqb : K -> K -> bool).
Hypothesis eqb_eq : forall a b, eqb a b = true <-> a = b.

Lemma eqb_same (a : K) : eqb a a = true.
Proof. now apply eqb_eq. Qed.

Lemma eqb_other (a b : K) : a <> b -> eqb a b = false.
Proof.
  intros H. destruct (eqb a b) eqn:E; [|reflexivity].
  now apply eqb_eq in E.
Qed.

Lemma map_get_set_same (m : list (K * V)) (k : K) (v : V) :
  map_get eqb (map_set eqb m k v) k = Some v.
Proof.
  induction m as [|[k' v'] m IH]; simpl.
  - now rewrite eqb_same.
  - destruct (eqb k k') eqn:E; simpl; rewrite E; [reflexivity | exact IH].
Qed.

Lemma map_get_set_other (m : list (K * V)) (k k' : K) (v : V) :
  k' <> k -> map_get eqb (map_set eqb m k v) k' = map_get eqb m k'.
Proof.
  intros Hne. induction m as [|[k0 v0] m IH]; simpl.
  - now rewrite eqb_other.
  - destruct (eqb k k0) eqn:E; simpl.
    + apply eqb_eq in E; subst k0. now rewrite eqb_other.
    + now rewrite IH.
Qed.

Lemma map_set_keys (m : list (K * V)) (k k' : K) (v : V) :
  In k' (map fst (map_set eqb m k v)) <-> k' = k \/ In k' (map fst m).
Proof.
  induction m as [|[k0 v0] m IH]; simpl.
  - intuition.
  - destruct (eqb k k0) eqn:E; simpl.
    + apply eqb_eq in E; subst k0. intuition.
    + rewrite IH. intuition.
Qed.

Lemma map_set_NoDup (m : list (K * V)) (k : K) (v : V) :
  NoDup (map fst m) -> NoDup (map fst (map_set eqb m k v)).
Proof.
  induction m as [|[k0 v0] m IH]; simpl; intros H.
  - constructor; [intros [] | constructor].
  - inversion H as [|? ? Hnotin Hnd]; subst.
    destruct (eqb k k0) eqn:E; simpl.
    + now constructor.
    + constructor; [|now apply IH].
      rewrite map_set_keys. intros [->|Hin]; [|contradiction].
      now rewrite eqb_same in E.
Qed.

Lemma map_set_In (m : list (K * V)) (k k' : K) (v v' : V) :
  In (k', v') (map_set eqb m k v) -> (k' = k /\ v' = v) \/ In (k', v') m.
Proof.
  induction m as [|[k0 v0] m IH]; simpl.
  - intros [[= <- <-]|[]]. now left.
  - destruct (eqb k k0) eqn:E; simpl.
    + apply eqb_eq in E; subst k0.
      intros [[= <- <-]|Hin]; [now left | now right; right].
    + intros [Heq|Hin]; [now right; left|].
      destruct (IH Hin); [now left | now right; right].
Qed.

Lemma map_get_In (m : list (K * V)) (k : K) (v : V) :
  map_get eqb m k = Some v -> In (k, v) m.
Proof.
  induction m as [|[k0 v0] m IH]; simpl; [discriminate|].
  destruct (eqb k k0) eqn:E.
  - apply eqb_eq in E; subst k0. intros [= <-]. now left.
  - intros H. right. now apply IH.
Qed.

Lemma In_map_get (m : list (K * V)) (k : K) (v : V) :
  NoDup (map fst m) -> In (k, v) m -> map_get eqb m k = Some v.
Proof.
  induction m as [|[k0 v0] m IH]; simpl; [intros _ []|].
  intros Hnd [[= -> ->]|Hin].
  - now rewrite eqb_same.
  - inversion Hnd as [|? ? Hnotin Hnd']; subst.
    rewrite eqb_other; [now apply IH|].
    intros ->. apply Hnotin. now apply (in_map fst) in Hin.
Qed.
End OrderedMapFacts.

(** ** Sorting *)

Section ToSortedFacts.
Context {A : Type} (key : A -> Z).
Let cmp (a b : A) : Z := key a - key b.
Let lt_key (a b : A) : Prop := key a < key b.

Lemma sorted_insert_In (x y : A) (l : list A) :
  In y (sorted_insert cmp x l) <-> y = x \/ In y l.
Proof.
  induction l as [|z l IH]; simpl.
  - intuition.
  - destruct (cmp x z <=? 0); simpl; [intuition|].
    rewrite IH. intuition.
Qed.

Lemma toSorted_In (y : A) (l : list A) :
  In y (toSorted cmp l) <-> In y l.
Proof.
  induction l as [|x l IH]; simpl; [tauto|].
  rewrite sorted_insert_In, IH. intuition.
Qed.

Lemma sorted_insert_sorted (x : A) (l : list A) :
  StronglySorted lt_key l -> ~ In (key x) (map key l) ->
  StronglySorted lt_key (sorted_insert cmp x l).
Proof.
  induction l as [|z l IH]; simpl; intros Hs Hnotin.
  - constructor; constructor.
  - apply StronglySorted_inv in Hs as [Hs Hall].
    destruct (cmp x z <=? 0) eqn:E.
    + apply Z.leb_le in E. unfold cmp in E.
      assert (Hlt : key x < key z) by (assert (key z <> key x) by tauto; lia).
      constructor; [constructor; assumption|].
      constructor; [exact Hlt|].
      rewrite Forall_forall in *. intros y Hy.
      specialize (Hall y Hy). unfold lt_key in *. lia.
    + apply Z.leb_gt in E. unfold cmp in E.
      constructor; [apply IH; tauto|].
      rewrite Forall_forall in *. intros y Hy.
      apply sorted_insert_In in Hy as [->|Hy]; [unfold lt_key; lia|].
      now apply Hall.
Qed.

Lemma toSorted_sorted (l : list A) :
  NoDup (map key l) -> StronglySorted lt_key (toSorted cmp l).
Proof.
  induction l as [|x l IH]; simpl; intros Hnd.
  - constructor.
  - inversion Hnd as [|? ? Hnotin Hnd']; subst.
    apply sorted_insert_sorted; [now apply IH|].
    intros Hin. apply Hnotin.
    apply in_map_iff in Hin as (y & Hy & Hin).
    apply (proj1 (toSorted_In y l)) in Hin. rewrite <- Hy. exact (in_map key l y Hin).
Qed.
End ToSortedFacts.

(** ** The button map *)

Lemma scan_button_buttonMap (i : Z) (content : string) (st : Scan.state) :
  Scan.buttonMap (scan_button i content st)
  = map_set Z.eqb (Scan.buttonMap st) i
      (mkButtonEntry i (TitleString content)).
Proof.
  unfold scan_button.
  destruct (Scan.currentButtonIndex st + 1 =? i); reflexivity.
Qed.

Lemma scan_tag_buttonMap_ok (st : Scan.state) (t : HTMLMetaElement) :
  buttonMap_ok (Scan.buttonMap st) ->
  buttonMap_ok (Scan.buttonMap (scan_tag st t)).
Proof.
  intros [Hnd Hall]. rewrite scan_tag_classify.
  destruct (classify t) as [| | |i c]; simpl; try (split; assumption).
  rewrite scan_button_buttonMap. split.
  - apply map_set_NoDup; [apply Z.eqb_eq | exact Hnd].
  - rewrite Forall_forall in *. intros [k e] Hin.
    apply (map_set_In Z.eqb Z.eqb_eq) in Hin as [[-> ->]|Hin];
      [reflexivity | now apply Hall].
Qed.

Lemma scan_buttonMap_ok (metaTags : list HTMLMetaElement) (st : Scan.state) :
  buttonMap_ok (Scan.buttonMap st) ->
  buttonMap_ok (Scan.buttonMap (fold_left scan_tag metaTags st)).
Proof.
  revert st. induction metaTags as [|t l IH]; intros st H; simpl;
    [exact H | apply IH, scan_tag_buttonMap_ok, H].
Qed.

Lemma scan_tag_get_plain (st : Scan.state) (t : HTMLMetaElement) (i : Z)
    (content : string) :
  classify t = PlainButton i content ->
  map_get Z.eqb (Scan.buttonMap (scan_tag st t)) i
  = Some (mkButtonEntry i (TitleString content)).
Proof.
  intros H. rewrite scan_tag_classify, H. simpl.
  rewrite scan_button_buttonMap.
  apply map_get_set_same, Z.eqb_eq.
Qed.

Lemma scan_tag_get_other (st : Scan.state) (t : HTMLMetaElement) (i : Z) :
  (forall c, classify t <> PlainButton i c) ->
  map_get Z.eqb (Scan.buttonMap (scan_tag st t)) i
  = map_get Z.eqb (Scan.buttonMap st) i.
Proof.
  intros H. rewrite scan_tag_classify.
  destruct (classify t) as [| | |j c] eqn:E; simpl; try reflexivity.
  rewrite scan_button_buttonMap.
  apply map_get_set_other; [apply Z.eqb_eq|].
  intros ->. now apply (H c).
Qed.

Lemma scan_get_other (l : list HTMLMetaElement) (st : Scan.state) (i : Z) :
  (forall u c, In u l -> classify u <> PlainButton i c) ->
  map_get Z.eqb (Scan.buttonMap (fold_left scan_tag l st)) i
  = map_get Z.eqb (Scan.buttonMap st) i.
Proof.
  revert st. induction l as [|t l IH]; intros st H; simpl; [reflexivity|].
  rewrite IH.
  - apply scan_tag_get_other. intros c. apply H. now left.
  - intros u c Hin. apply H. now right.
Qed.

(** After the scan, the entry of an index is that of its last plain tag. *)
Lemma scan_last_plain (before after : list HTMLMetaElement)
    (t : HTMLMetaElement) (i : Z) (content : string) :
  classify t = PlainButton i content ->
  (forall u c, In u after -> classify u <> PlainButton i c) ->
  map_get Z.eqb (Scan.buttonMap (scan (before ++ t :: after))) i
  = Some (mkButtonEntry i (TitleString content)).
Proof.
  intros Ht Hafter. unfold scan. rewrite fold_left_app. simpl.
  rewrite (scan_get_other after _ i Hafter).
  now apply scan_tag_get_plain.
Qed.

Lemma collect_buttons_index (buttonMap : list (Z * ButtonEntry))
    (buttonActionMap : list (Z * string)) :
  buttonMap_ok buttonMap ->
  map index (collect_buttons buttonMap buttonActionMap) = map fst buttonMap.
Proof.
  intros [_ Hall]. unfold collect_buttons. rewrite map_map.
  apply map_ext_in. intros [k e] Hin. simpl.
  rewrite Forall_forall in Hall. exact (Hall _ Hin).
Qed.

Lemma htmlToFrame_buttons (metaTags : list HTMLMetaElement) :
  Frame.buttons (htmlToFrame metaTags)
  = toSorted (fun a b => index a - index b)
      (collect_buttons (Scan.buttonMap (scan metaTags))
         (Scan.buttonActionMap (scan metaTags))).
Proof. reflexivity. Qed.

Lemma scan_ok (metaTags : list HTMLMetaElement) :
  buttonMap_ok (Scan.buttonMap (scan metaTags)).
Proof.
  apply scan_buttonMap_ok. split; [constructor | constructor].
Qed.

Lemma htmlToFrame_buttons_sorted (metaTags : list HTMLMetaElement) :
  StronglySorted lt_index (Frame.buttons (htmlToFrame metaTags)).
Proof.
  rewrite htmlToFrame_buttons.
  apply (toSorted_sorted index).
  rewrite collect_buttons_index by apply scan_ok.
  apply scan_ok.
Qed.

(** A decoded button comes from the entry the map holds for its index. *)
Lemma htmlToFrame_buttons_In (metaTags : list HTMLMetaElement)
    (b : FrameButton) :
  In b (Frame.buttons (htmlToFrame metaTags)) <->
  exists e,
    map_get Z.eqb (Scan.buttonMap (scan metaTags)) (index b) = Some e
    /\ b = mkFrameButton (entry_index e) (entry_title e)
             (nullish (map_get Z.eqb (Scan.buttonActionMap (scan metaTags))
                         (index b)) "post").
Proof.
  rewrite htmlToFrame_buttons, toSorted_In.
  unfold collect_buttons. rewrite in_map_iff.
  destruct (scan_ok metaTags) as [Hnd Hall].
  rewrite Forall_forall in Hall.
  split.
  - intros ([k e] & Hb & Hin). exists e.
    pose proof (Hall _ Hin) as Hk. simpl in Hk.
    assert (Hi : index b = k) by (rewrite <- Hb; simpl; exact Hk).
    rewrite Hi. split; [|now rewrite <- Hb].
    apply In_map_get; [apply Z.eqb_eq | exact Hnd | exact Hin].
  - intros (e & Hget & Hb). apply map_get_In in Hget; [|apply Z.eqb_eq].
    exists (index b, e). split; [|exact Hget].
    simpl. symmetry. exact Hb.
Qed.

(** ** The named properties *)

Lemma scan_button_properties (i : Z) (content : string) (st : Scan.state) :
  Scan.properties (scan_button i content st) = Scan.properties st.
Proof.
  unfold scan_button.
  destruct (Scan.currentButtonIndex st + 1 =? i); reflexivity.
Qed.

Lemma classify_property (t : HTMLMetaElement) (name content : string) :
  classify t = NamedProperty name content ->
  attr_property t = Some name /\ content = nullish (attr_content t) "".
Proof.
  unfold classify.
  destruct (attr_property t) as [[|c p]|]; try discriminate.
  destruct (validPropertyNames_has (String c p)).
  - intros [= <- <-]. auto.
  - destruct (buttonRegex_match (String c p)) as [m|]; [|discriminate].
    destruct (parseInt (group1 m)); [|discriminate].
    destruct (group2 m); discriminate.
Qed.

Lemma classify_frame_image (t : HTMLMetaElement) :
  attr_property t = Some "fc:frame:image" ->
  classify t = NamedProperty "fc:frame:image" (nullish (attr_content t) "").
Proof.
  intros H. unfold classify. now rewrite H.
Qed.

Lemma scan_tag_frame_image (st : Scan.state) (t : HTMLMetaElement) :
  map_get String.eqb (Scan.properties (scan_tag st t)) "fc:frame:image"
  = match attr_property t with
    | Some p =>
        if String.eqb p "fc:frame:image"
        then Some (nullish (attr_content t) "")
        else map_get String.eqb (Scan.properties st) "fc:frame:image"
    | None => map_get String.eqb (Scan.properties st) "fc:frame:image"
    end.
Proof.
  destruct (attr_property t) as [p|] eqn:Ep.
  - destruct (String.eqb_spec p "fc:frame:image") as [->|Hne].
    + rewrite scan_tag_classify, (classify_frame_image t Ep). simpl.
      apply map_get_set_same, String.eqb_eq.
    + rewrite scan_tag_classify.
      destruct (classify t) as [|name c| |] eqn:E; simpl; try reflexivity;
        [|now rewrite scan_button_properties].
      apply classify_property in E as [E _].
      rewrite Ep in E. injection E as <-.
      apply map_get_set_other; [apply String.eqb_eq|].
      intros H. now apply Hne.
  - rewrite scan_tag_classify. unfold classify. now rewrite Ep.
Qed.

Lemma scan_frame_image (metaTags : list HTMLMetaElement) (st : Scan.state) :
  map_get String.eqb (Scan.properties (fold_left scan_tag metaTags st))
    "fc:frame:image"
  = match frame_image_contents metaTags with
    | [] => map_get String.eqb (Scan.properties st) "fc:frame:image"
    | c :: l => Some (last (c :: l) "")
    end.
Proof.
  revert st. induction metaTags as [|t l IH]; intros st; [reflexivity|].
  simpl fold_left. rewrite IH, scan_tag_frame_image.
  unfold frame_image_contents at 2. simpl flat_map.
  fold (frame_image_contents l).
  destruct (attr_property t) as [p|]; [|reflexivity].
  destruct (String.eqb p "fc:frame:image"); [|reflexivity].
  simpl app. destruct (frame_image_contents l); reflexivity.
Qed.

Lemma htmlToFrame_fallback (metaTags : list HTMLMetaElement) :
  Debug.fallbackImageToUrl (Frame.debug (htmlToFrame metaTags))
  = is_empty (last (frame_image_contents metaTags) "").
Proof.
  unfold htmlToFrame. simpl. unfold scan. rewrite scan_frame_image.
  destruct (frame_image_contents metaTags); reflexivity.
Qed.

Lemma is_empty_true (s : string) : is_empty s = true <-> s = "".
Proof. destruct s; simpl; split; congruence. Qed.

Lemma frame_image_contents_filter (name : string)
    (metaTags : list HTMLMetaElement) :
  name <> "fc:frame:image" ->
  frame_image_contents
    (filter (fun t => negb (has_property name t)) metaTags)
  = frame_image_contents metaTags.
Proof.
  intros Hne. induction metaTags as [|t l IH]; [reflexivity|].
  simpl filter. unfold has_property at 1.
  unfold frame_image_contents at 2. simpl flat_map.
  fold (frame_image_contents l).
  destruct (attr_property t) as [p|] eqn:Ep; simpl negb.
  - destruct (String.eqb_spec p name) as [->|Hpn]; simpl.
    + rewrite IH. now rewrite (proj2 (String.eqb_neq _ _) Hne).
    + unfold frame_image_contents at 1. simpl flat_map.
      fold (frame_image_contents
              (filter (fun t => negb (has_property name t)) l)).
      now rewrite Ep, IH.
  - unfold frame_image_contents at 1. simpl flat_map.
    fold (frame_image_contents
            (filter (fun t => negb (has_property name t)) l)).
    now rewrite Ep, IH.
Qed.

(** ** Decoder claims *)

(** C10.  [buttonRegex] has no anchor at its start: a meta tag whose
    [property] ends with [fc:frame:button:n], for [n] from 1 to 4, with
    or without [:action] or [:target] after it, is processed as the
    button tag (or the action/target tag) of index [n], whatever
    characters come first in the property. *)
Theorem button_pattern_anchored_at_end_only (pre : string) (n : Z)
    (suffix : option string) (content : option string) (html : string)
    (st : Scan.state) :
  1 <= n <= 4 -> valid_suffix suffix ->
  scan_tag st
    (mkMeta (Some (pre ++ button_property n suffix)%string) content html)
  = match suffix with
    | Some _ => scan_action n (nullish content "") st
    | None => scan_button n (nullish content "") st
    end.
Proof.
  intros Hn Hs.
  rewrite scan_tag_classify, (classify_button_property pre n suffix);
    try assumption.
  destruct suffix; reflexivity.
Qed.

Lemma button_pattern_anchored_at_end_only_witness :
  scan_tag Scan.init (mkMeta (Some "xfc:frame:button:1") (Some "Yes") "")
  = scan_button 1 "Yes" Scan.init.
Proof.
  apply (button_pattern_anchored_at_end_only "x" 1 None (Some "Yes") ""
           Scan.init).
  - lia.
  - left. reflexivity.
Defined.

(** C2, as the claim states it: button 2 then button 1 would leave
    [invalidButtons = [1]].  The decoder answers [[2; 1]]. *)
Lemma out_of_order_pair_not_singleton :
  Debug.buttonsAreOutOfOrder
    (Frame.debug
       (htmlToFrame [meta "fc:frame:button:2" "No";
                     meta "fc:frame:button:1" "Yes"])) = true
  /\ Debug.invalidButtons
       (Frame.debug
          (htmlToFrame [meta "fc:frame:button:2" "No";
                        meta "fc:frame:button:1" "Yes"])) <> [1].
Proof.
  split; [reflexivity|].
  vm_compute. discriminate.
Qed.

(** C2, amended.  When the plain button tags of a document are, in
    document order, one of index 2 then one of index 1, the debug record
    has [buttonsAreOutOfOrder = true] and [invalidButtons = [2; 1]]:
    button 2 is flagged because button 1 is missing before it, and the
    flag stays set when button 1 arrives. *)
Theorem out_of_order_pair (metaTags : list HTMLMetaElement) :
  plain_button_indices metaTags = [2; 1] ->
  Debug.buttonsAreOutOfOrder (Frame.debug (htmlToFrame metaTags)) = true
  /\ Debug.invalidButtons (Frame.debug (htmlToFrame metaTags)) = [2; 1].
Proof.
  intros H.
  apply (htmlToFrame_order metaTags 1 true false [2; 1]).
  rewrite H. reflexivity.
Qed.

Lemma out_of_order_pair_witness :
  Debug.buttonsAreOutOfOrder
    (Frame.debug
       (htmlToFrame [meta "fc:frame" "vNext";
                     meta "fc:frame:button:2" "No";
                     meta "fc:frame:button:1" "Yes"])) = true
  /\ Debug.invalidButtons
       (Frame.debug
          (htmlToFrame [meta "fc:frame" "vNext";
                        meta "fc:frame:button:2" "No";
                        meta "fc:frame:button:1" "Yes"])) = [2; 1].
Proof.
  apply (out_of_order_pair [meta "fc:frame" "vNext";
                            meta "fc:frame:button:2" "No";
                            meta "fc:frame:button:1" "Yes"]).
  reflexivity.
Defined.

(** C3.  For [k] from 1 to 4, a document whose plain button tags carry,
    in document order, the indices 1, 2, ..., [k] is reported with
    [buttonsAreOutOfOrder = false] and [invalidButtons = []]. *)
Theorem increasing_buttons_are_in_order (k : nat)
    (metaTags : list HTMLMetaElement) :
  (1 <= k <= 4)%nat ->
  plain_button_indices metaTags = indices_up_to k ->
  Debug.buttonsAreOutOfOrder (Frame.debug (htmlToFrame metaTags)) = false
  /\ Debug.invalidButtons (Frame.debug (htmlToFrame metaTags)) = [].
Proof.
  intros _ H.
  apply (htmlToFrame_order metaTags (Z.of_nat (0 + k)) false false []).
  rewrite H. unfold indices_up_to.
  exact (order_step_increasing k 0%nat []).
Qed.

Lemma increasing_buttons_are_in_order_witness :
  Debug.buttonsAreOutOfOrder
    (Frame.debug
       (htmlToFrame [meta "fc:frame" "vNext";
                     meta "fc:frame:button:1" "Yes";
                     meta "fc:frame:button:1:action" "link";
                     meta "fc:frame:button:2" "No";
                     meta "fc:frame:button:3" "Maybe"])) = false
  /\ Debug.invalidButtons
       (Frame.debug
          (htmlToFrame [meta "fc:frame" "vNext";
                        meta "fc:frame:button:1" "Yes";
                        meta "fc:frame:button:1:action" "link";
                        meta "fc:frame:button:2" "No";
                        meta "fc:frame:button:3" "Maybe"])) = [].
Proof.
  apply (increasing_buttons_are_in_order 3
           [meta "fc:frame" "vNext";
            meta "fc:frame:button:1" "Yes";
            meta "fc:frame:button:1:action" "link";
            meta "fc:frame:button:2" "No";
            meta "fc:frame:button:3" "Maybe"]).
  - lia.
  - reflexivity.
Defined.

(** C6.  The decoded buttons are sorted by ascending index, no index
    occurring twice; and the button of an index takes its index and its
    title from the last plain button tag of that index in the
    document. *)
Theorem buttons_sorted_last_tag_wins (metaTags : list HTMLMetaElement) :
  StronglySorted lt_index (Frame.buttons (htmlToFrame metaTags))
  /\ forall before metaTag after i content,
       metaTags = before ++ metaTag :: after ->
       classify metaTag = PlainButton i content ->
       (forall u c, In u after -> classify u <> PlainButton i c) ->
       (exists b, In b (Frame.buttons (htmlToFrame metaTags)) /\ index b = i)
       /\ (forall b, In b (Frame.buttons (htmlToFrame metaTags)) ->
                     index b = i -> title b = TitleString content).
Proof.
  split; [apply htmlToFrame_buttons_sorted|].
  intros before t after i content -> Ht Hafter.
  pose proof (scan_last_plain before after t i content Ht Hafter) as Hget.
  split.
  - exists (mkFrameButton i (TitleString content)
              (nullish (map_get Z.eqb
                          (Scan.buttonActionMap (scan (before ++ t :: after)))
                          i) "post")).
    split; [|reflexivity].
    apply htmlToFrame_buttons_In. simpl index.
    eexists. split; [exact Hget | reflexivity].
  - intros b Hin Hi.
    apply htmlToFrame_buttons_In in Hin as (e & He & Hb).
    rewrite Hi, Hget in He. injection He as <-.
    rewrite Hb. reflexivity.
Qed.

Lemma buttons_sorted_last_tag_wins_witness :
  exists b,
    In b (Frame.buttons
            (htmlToFrame [meta "fc:frame:button:1" "first";
                          meta "fc:frame:button:2" "other";
                          meta "fc:frame:button:1" "second"]))
    /\ index b = 1 /\ title b = TitleString "second".
Proof.
  destruct (buttons_sorted_last_tag_wins
              [meta "fc:frame:button:1" "first";
               meta "fc:frame:button:2" "other";
               meta "fc:frame:button:1" "second"]) as [_ H].
  destruct (H [meta "fc:frame:button:1" "first";
               meta "fc:frame:button:2" "other"]
              (meta "fc:frame:button:1" "second") [] 1 "second"
              eq_refl eq_refl (fun u c (Hin : In u []) => match Hin with end))
    as [[b [Hin Hb]] Hall].
  exists b. split; [exact Hin|]. split; [exact Hb|].
  exact (Hall b Hin Hb).
Defined.

(** C7, at the input the claim names: a [fc:frame:button:2] tag with an
    empty content, and the same tag with no content attribute at all.
    The decoded title is the empty string, not the index: [content] has
    already been defaulted to the empty string, so the fallback
    [content ?? index] is never taken. *)
Theorem empty_content_title_is_empty :
  Frame.buttons
    (htmlToFrame [meta "fc:frame:button:1" "Yes";
                  meta "fc:frame:button:2" ""])
  = [ mkFrameButton 1 (TitleString "Yes") "post";
      mkFrameButton 2 (TitleString "") "post" ]
  /\ Frame.buttons
       (htmlToFrame [meta "fc:frame:button:1" "Yes";
                     mkMeta (Some "fc:frame:button:2") None
                       "<meta property='fc:frame:button:2'>"])
     = [ mkFrameButton 1 (TitleString "Yes") "post";
         mkFrameButton 2 (TitleString "") "post" ].
Proof. split; reflexivity. Qed.

(** C8, as the claim states it: the flag would be false whenever a
    [fc:frame:image] tag is present.  With an empty content it is true. *)
Lemma fallback_with_image_tag_present :
  ~ (Debug.fallbackImageToUrl
       (Frame.debug (htmlToFrame [meta "fc:frame:image" ""])) = true
     <-> forall t, In t [meta "fc:frame:image" ""] ->
                   attr_property t <> Some "fc:frame:image").
Proof.
  intros [H _].
  apply (H eq_refl (meta "fc:frame:image" "")); [now left | reflexivity].
Qed.

(** C8, amended.  [fallbackImageToUrl] is true if and only if the
    document has no [fc:frame:image] tag or the last such tag has an
    empty (or no) content; [og:image] tags have no influence on it. *)
Theorem fallback_iff_image_url_empty (metaTags : list HTMLMetaElement) :
  (Debug.fallbackImageToUrl (Frame.debug (htmlToFrame metaTags)) = true
   <-> last (frame_image_contents metaTags) "" = "")
  /\ Debug.fallbackImageToUrl
       (Frame.debug
          (htmlToFrame
             (filter (fun t => negb (has_property "og:image" t)) metaTags)))
     = Debug.fallbackImageToUrl (Frame.debug (htmlToFrame metaTags)).
Proof.
  split.
  - rewrite htmlToFrame_fallback. apply is_empty_true.
  - rewrite !htmlToFrame_fallback.
    rewrite frame_image_contents_filter; [reflexivity | discriminate].
Qed.

(** ** The encoder's traversal *)

Lemma mapM_cons {A B : Type} (f : A -> Enc B) (a : A) (l : list A)
    (c : Counter) :
  mapM f (a :: l) c =
  match f a c with
  | Normal (b, c1) =>
      match mapM f l c1 with
      | Normal (bs, c2) => Normal (b :: bs, c2)
      | Throw e => Throw e
      end
  | Throw e => Throw e
  end.
Proof.
  simpl. unfold bind. destruct (f a c) as [[b c1]|e]; [|reflexivity].
  destruct (mapM f l c1) as [[bs c2]|e]; reflexivity.
Qed.

Lemma parseIntent_button (tag : Props -> option JSXNode) (props : Props)
    (children : list Value) (c : Counter) :
  parseIntent (ChildNode (JSXCap "button" tag props children)) c
  = Normal (tag (button_props props children (button c)),
            mkCounter (button c + 1)).
Proof. reflexivity. Qed.

Lemma parseIntent_text_input (tag : Props -> option JSXNode) (props : Props)
    (children : list Value) (c : Counter) :
  parseIntent (ChildNode (JSXCap "text-input" tag props children)) c
  = Normal (tag (text_input_props props children), c).
Proof. reflexivity. Qed.

(** [parseIntent] advances the counter by one on a button-tagged node and
    leaves it alone otherwise. *)
Lemma parseIntent_counter (x : Intent) (c c' : Counter)
    (r : option JSXNode) :
  parseIntent x c = Normal (r, c') ->
  button c' = button c + (if is_button_node x then 1 else 0).
Proof.
  unfold parseIntent, bind, ret, throw, button_post_increment.
  destruct x as [v|[tag props children|tag props children
                   |ty tag props children]]; simpl.
  - destruct (truthy v); [discriminate|].
    intros [= _ <-]. lia.
  - intros [= _ <-]. lia.
  - intros [= _ <-]. lia.
  - destruct (String.eqb ty "button") eqn:Eb.
    + intros [= _ <-]. reflexivity.
    + destruct (String.eqb ty "text-input"); intros [= _ <-]; lia.
Qed.

Lemma count_buttons_cons (x : Intent) (l : list Intent) :
  count_buttons (x :: l)
  = (if is_button_node x then 1 else 0) + count_buttons l.
Proof.
  unfold count_buttons. simpl. destruct (is_button_node x); simpl length; lia.
Qed.

Lemma mapM_parseIntent_counter (l : list Intent) :
  forall (c c' : Counter) (rs : list (option JSXNode)),
  mapM parseIntent l c = Normal (rs, c') ->
  button c' = button c + count_buttons l.
Proof.
  induction l as [|x l IH]; intros c c' rs.
  - simpl. intros [= _ <-]. unfold count_buttons. simpl. lia.
  - rewrite mapM_cons.
    destruct (parseIntent x c) as [[r c1]|e] eqn:E1; [|discriminate].
    destruct (mapM parseIntent l c1) as [[bs c2]|e] eqn:E2; [|discriminate].
    intros [= _ <-].
    rewrite (IH _ _ _ E2), (parseIntent_counter _ _ _ _ E1),
      count_buttons_cons. lia.
Qed.

(** The output at a position is computed with the counter that the
    button-tagged intents before that position have advanced. *)
Lemma mapM_parseIntent_nth (l : list Intent) :
  forall (c c' : Counter) (rs : list (option JSXNode)) (i : nat) (x : Intent),
  mapM parseIntent l c = Normal (rs, c') ->
  nth_error l i = Some x ->
  exists r c1,
    nth_error rs i = Some r
    /\ parseIntent x (mkCounter (button c + count_buttons (firstn i l)))
       = Normal (r, c1).
Proof.
  induction l as [|y l IH]; intros c c' rs i x.
  - destruct i; discriminate.
  - rewrite mapM_cons.
    destruct (parseIntent y c) as [[r c1]|e] eqn:E1; [|discriminate].
    destruct (mapM parseIntent l c1) as [[bs c2]|e] eqn:E2; [|discriminate].
    intros [= <- <-]. destruct i as [|i]; simpl nth_error.
    + intros [= <-]. exists r, c1. split; [reflexivity|].
      simpl firstn. unfold count_buttons. simpl.
      replace (mkCounter (button c + 0)) with c; [exact E1|].
      destruct c; simpl; f_equal; lia.
    + intros Hx. destruct (IH _ _ _ _ _ E2 Hx) as (r' & c1' & Hr & Hp).
      exists r', c1'. split; [exact Hr|].
      rewrite firstn_cons, count_buttons_cons.
      rewrite (parseIntent_counter _ _ _ _ E1) in Hp.
      now rewrite Z.add_assoc.
Qed.

Lemma parseIntents_traversed (intents : Intents) (encoded : Encoded) :
  parseIntents intents = Normal encoded ->
  exists c',
    mapM parseIntent (traversed intents) (mkCounter 1)
    = Normal (outputs encoded, c').
Proof.
  unfold parseIntents, parseIntents_from, traversed.
  destruct intents as [l|n].
  - unfold bind, ret.
    destruct (mapM parseIntent l (mkCounter 1)) as [[rs c']|e];
      [|discriminate].
    intros [= <-]. now exists c'.
  - destruct (first_child_is_object (children_of n)).
    + unfold bind, ret.
      destruct (mapM parseIntent (children_of n) (mkCounter 1))
        as [[rs c']|e]; [|discriminate].
      intros [= <-]. now exists c'.
    + rewrite mapM_cons. unfold bind, ret.
      destruct (parseIntent (ChildNode n) (mkCounter 1)) as [[r c']|e];
        [|discriminate].
      intros [= <-]. now exists c'.
Qed.

(** ** Components *)

Lemma prop_set_same (props : Props) (k : string) (v : Value) :
  prop (map_set String.eqb props k v) k = v.
Proof.
  unfold prop. now rewrite (map_get_set_same String.eqb String.eqb_eq).
Qed.

Lemma prop_set_other (props : Props) (k k' : string) (v : Value) :
  k' <> k -> prop (map_set String.eqb props k v) k' = prop props k'.
Proof.
  intros H. unfold prop.
  now rewrite (map_get_set_other String.eqb String.eqb_eq).
Qed.

Lemma Button_button_props (props : Props) (children : list Value) (i : Z) :
  Button (button_props props children i)
  = Some (JSXElem "meta"
            [ ("property", VString ("fc:frame:button:" ++ Z_to_string i));
              ("content", VArray children);
              ("data-value", prop props "value") ]
            []).
Proof.
  unfold Button, button_props.
  rewrite prop_set_same.
  rewrite (prop_set_other _ "index" "children"), prop_set_same
    by discriminate.
  rewrite !(prop_set_other _ _ "value") by discriminate.
  reflexivity.
Qed.

(** ** Encoder claims *)

(** C5.  In every intent tree the encoder accepts, the button-tagged node
    at a position of the traversal is rendered with [index] one more than
    the number of button-tagged nodes traversed before it, counted from 1
    across the whole traversal (array elements included); a
    text-input-tagged node is rendered with its props and children only,
    and since it is not counted it uses up no index. *)
Theorem button_index_is_rank_among_buttons (intents : Intents)
    (encoded : Encoded) :
  parseIntents intents = Normal encoded ->
  forall (i : nat) (tag : Props -> option JSXNode) (props : Props)
         (children : list Value),
    (nth_error (traversed intents) i
     = Some (ChildNode (JSXCap "button" tag props children)) ->
     nth_error (outputs encoded) i
     = Some (tag (button_props props children
                    (1 + count_buttons (firstn i (traversed intents))))))
    /\ (nth_error (traversed intents) i
        = Some (ChildNode (JSXCap "text-input" tag props children)) ->
        nth_error (outputs encoded) i
        = Some (tag (text_input_props props children))).
Proof.
  intros H i tag props children.
  destruct (parseIntents_traversed intents encoded H) as [c' Hm].
  split; intros Hx;
    destruct (mapM_parseIntent_nth _ _ _ _ _ _ Hm Hx) as (r & c1 & Hr & Hp).
  - rewrite parseIntent_button in Hp. simpl button in Hp.
    injection Hp as <- _. exact Hr.
  - rewrite parseIntent_text_input in Hp.
    injection Hp as <- _. exact Hr.
Qed.

Lemma button_index_is_rank_among_buttons_witness :
  nth_error
    (outputs
       (EncodedArray
          [ Button (button_props [] [VString "Yes"] 1);
            None;
            TextInput (text_input_props [] []);
            Button (button_props [] [VString "No"] 2) ])) 3
  = Some (Button (button_props [] [VString "No"] 2)).
Proof.
  apply (button_index_is_rank_among_buttons
           (IntentArray
              [ ChildNode (ButtonNode [] [VString "Yes"]);
                ChildValue (VBool false);
                ChildNode (TextInputNode []);
                ChildNode (ButtonNode [] [VString "No"]) ])
           (EncodedArray
              [ Button (button_props [] [VString "Yes"] 1);
                None;
                TextInput (text_input_props [] []);
                Button (button_props [] [VString "No"] 2) ])
           eq_refl 3%nat Button [] [VString "No"]).
  reflexivity.
Defined.

(** C9, as the claim states it: a node whose tag has neither capability
    tag would come out as it went in.  A function component without
    [__type] is called with empty props instead, and its own props are
    lost. *)
Lemma untagged_component_is_called :
  let Label (props : Props) :=
    Some (JSXElem "meta"
            [("property", VString "label"); ("content", prop props "text")]
            []) in
  let node := JSXFn Label [("text", VString "hello")] [] in
  capability node <> Some "button"
  /\ capability node <> Some "text-input"
  /\ parseIntent (ChildNode node) (mkCounter 1)
     = Normal (Some (JSXElem "meta"
                       [("property", VString "label");
                        ("content", VUndefined)] []),
               mkCounter 1)
  /\ parseIntent (ChildNode node) (mkCounter 1)
     <> Normal (Some node, mkCounter 1).
Proof.
  simpl. repeat split; discriminate.
Qed.

(** C9, amended.  A node whose tag is a string is passed through
    unmodified, with its props and children.  A node whose tag is a
    function that carries neither the [button] nor the [text-input] tag
    is replaced by what that function returns for empty props.  In both
    cases the counter is left as it was. *)
Theorem untagged_node_encoding :
  (forall (tag : string) (props : Props) (children : list Child)
          (c : Counter),
      parseIntent (ChildNode (JSXElem tag props children)) c
      = Normal (Some (JSXElem tag props children), c))
  /\ (forall (tag : Props -> option JSXNode) (props : Props)
             (children : list Child) (c : Counter),
         parseIntent (ChildNode (JSXFn tag props children)) c
         = Normal (tag [], c))
  /\ (forall (ty : string) (tag : Props -> option JSXNode) (props : Props)
             (children : list Value) (c : Counter),
         ty <> "button" -> ty <> "text-input" ->
         parseIntent (ChildNode (JSXCap ty tag props children)) c
         = Normal (tag [], c)).
Proof.
  repeat split.
  intros ty tag props children c Hb Ht. unfold parseIntent.
  apply String.eqb_neq in Hb, Ht. now rewrite Hb, Ht.
Qed.

Lemma untagged_node_encoding_witness :
  parseIntent
    (ChildNode (JSXCap "image" (fun _ => None) [("src", VString "a.png")] []))
    (mkCounter 3)
  = Normal (None, mkCounter 3).
Proof.
  apply (proj2 (proj2 untagged_node_encoding) "image" (fun _ => None)
           [("src", VString "a.png")] [] (mkCounter 3));
    discriminate.
Defined.

(** C4.  Two button nodes, given as an array, encoded and then decoded
    from the meta elements they render to, give the buttons of index 1
    and 2, both of type [post], each with the text of its node as title.
    The encoder's output does render to meta elements, so this is said
    of a page that exists.  A container whose children are the two
    nodes is returned with the same two outputs as its children. *)
Theorem two_buttons_round_trip (p1 p2 : Props) (c1 c2 : list Value) :
  exists outs,
    parseIntents
      (IntentArray [ChildNode (ButtonNode p1 c1); ChildNode (ButtonNode p2 c2)])
    = Normal (EncodedArray outs)
    /\ (forall container,
          children_of container
          = [ChildNode (ButtonNode p1 c1); ChildNode (ButtonNode p2 c2)] ->
          parseIntents (IntentNode container)
          = Normal (EncodedContainer container outs))
    /\ (exists metaTags, Forall2 rendered_as outs metaTags)
    /\ forall metaTags,
         Forall2 rendered_as outs metaTags ->
         Frame.buttons (htmlToFrame metaTags)
         = [ mkFrameButton 1 (TitleString (Value_toString (VArray c1))) "post";
             mkFrameButton 2 (TitleString (Value_toString (VArray c2))) "post" ].
Proof.
  exists [Button (button_props p1 c1 1); Button (button_props p2 c2 2)].
  split; [reflexivity|]. split.
  { intros container Hc. unfold parseIntents, parseIntents_from.
    rewrite Hc. reflexivity. }
  rewrite !Button_button_props. split.
  - exists [ mkMeta (Some "fc:frame:button:1") (attribute (VArray c1)) "";
             mkMeta (Some "fc:frame:button:2") (attribute (VArray c2)) "" ].
    repeat (constructor; [repeat split|]). constructor.
  - intros metaTags HF.
    inversion HF as [|r1 t1 l1 l1' Hr1 HF1]; subst.
    inversion HF1 as [|r2 t2 l2 l2' Hr2 HF2]; subst.
    inversion HF2; subst.
    destruct Hr1 as (_ & Hp1 & Hc1), Hr2 as (_ & Hp2 & Hc2).
    destruct t1 as [tp1 tc1 h1], t2 as [tp2 tc2 h2].
    simpl in Hp1, Hc1, Hp2, Hc2. subst tp1 tc1 tp2 tc2.
    reflexivity.
Qed.

Lemma two_buttons_round_trip_witness :
  Frame.buttons
    (htmlToFrame [meta "fc:frame:button:1" "Yes";
                  meta "fc:frame:button:2" "No"])
  = [ mkFrameButton 1 (TitleString "Yes") "post";
      mkFrameButton 2 (TitleString "No") "post" ].
Proof.
  destruct (two_buttons_round_trip [] [] [VString "Yes"] [VString "No"])
    as (outs & He & _ & _ & H).
  vm_compute in He. injection He as <-.
  apply (H [meta "fc:frame:button:1" "Yes"; meta "fc:frame:button:2" "No"]).
  repeat (constructor; [repeat split|]). constructor.
Defined.

(** ** The context token *)

Lemma uri_tokens_eq (c : ascii) (r : string) :
  uri_tokens (String c r) =
  if Ascii.eqb c "%" then
    match r with
    | String h (String l r') =>
        match hex_value h, hex_value l with
        | Some x, Some y =>
            match uri_tokens r' with
            | Normal ts => Normal (Octet (16 * x + y) :: ts)
            | Throw e => Throw e
            end
        | _, _ => Throw URIError
        end
    | _ => Throw URIError
    end
  else
    match uri_tokens r with
    | Normal ts => Normal (Plain c :: ts)
    | Throw e => Throw e
    end.
Proof. reflexivity. Qed.

(** A [%] that is not followed by two hexadecimal digits makes the
    first pass fail, wherever it stands. *)
Lemma uri_tokens_bad_escape (n : nat) : forall (pre post : string),
  (String.length pre <= n)%nat ->
  starts_with_hex_pair post = false ->
  uri_tokens (pre ++ String "%" post) = Throw URIError.
Proof.
  induction n as [|n IH]; intros pre post Hlen Hbad.
  - destruct pre; [|simpl in Hlen; lia].
    simpl append. rewrite uri_tokens_eq. simpl Ascii.eqb.
    destruct post as [|h [|l r']]; try reflexivity.
    simpl in Hbad. cbv beta iota.
    destruct (hex_value h); [|reflexivity].
    destruct (hex_value l); [discriminate | reflexivity].
  - destruct pre as [|c pre].
    + apply (IH EmptyString post); [simpl; lia | exact Hbad].
    + simpl append. rewrite uri_tokens_eq.
      destruct (Ascii.eqb c "%").
      * destruct pre as [|h [|l pre]]; simpl append.
        -- destruct post; reflexivity.
        -- cbv beta iota. destruct (hex_value h); reflexivity.
        -- cbv beta iota. destruct (hex_value h); [|reflexivity].
           destruct (hex_value l); [|reflexivity].
           rewrite (IH pre post); [reflexivity | simpl in Hlen; lia | exact Hbad].
      * rewrite (IH pre post); [reflexivity | simpl in Hlen; lia | exact Hbad].
Qed.

Lemma uri_tokens_throws (n : nat) : forall (s : string) (e : Exception),
  (String.length s <= n)%nat ->
  uri_tokens s = Throw e -> e = URIError.
Proof.
  induction n as [|n IH]; intros s e Hlen.
  - destruct s; [discriminate | simpl in Hlen; lia].
  - destruct s as [|c s]; [discriminate|].
    rewrite uri_tokens_eq. destruct (Ascii.eqb c "%").
    + destruct s as [|h [|l s]]; try (intros [= <-]; reflexivity).
      cbv beta iota.
      destruct (hex_value h); [|intros [= <-]; reflexivity].
      destruct (hex_value l); [|intros [= <-]; reflexivity].
      destruct (uri_tokens s) as [ts|e'] eqn:E; [discriminate|].
      intros [= <-]. apply (IH s); [simpl in Hlen; lia | exact E].
    + destruct (uri_tokens s) as [ts|e'] eqn:E; [discriminate|].
      intros [= <-]. apply (IH s); [simpl in Hlen; lia | exact E].
Qed.

Lemma with_octets_throws (bs : list Z) (rest : Completion string)
    (e : Exception) :
  with_octets bs rest = Throw e -> rest = Throw e.
Proof.
  destruct rest; simpl; [discriminate | congruence].
Qed.

Lemma uri_assemble_throws (n : nat) : forall (ts : list UriToken)
    (e : Exception),
  (List.length ts <= n)%nat ->
  uri_assemble ts = Throw e -> e = URIError.
Proof.
  induction n as [|n IH]; intros ts e Hlen.
  - destruct ts; [discriminate | simpl in Hlen; lia].
  - destruct ts as [|[c|a] r]; [discriminate| |].
    + simpl. destruct (uri_assemble r) as [s|e'] eqn:E; [discriminate|].
      intros [= <-]. apply (IH r); [simpl in Hlen; lia | exact E].
    + simpl in Hlen.
      assert (Hstep : forall bs r', (List.length r' <= n)%nat ->
                        with_octets bs (uri_assemble r') = Throw e ->
                        e = URIError).
      { intros bs r' Hr' H. apply with_octets_throws in H.
        exact (IH r' e Hr' H). }
      assert (Hfail : @Throw string URIError = Throw e -> e = URIError)
        by (intros [= <-]; reflexivity).
      unfold uri_assemble; fold uri_assemble.
      destruct (a <? 128); [apply Hstep; lia|].
      destruct r as [|[cb|b] r1]; try exact Hfail.
      destruct (between 194 a 223).
      { destruct (between 128 b 191); [|exact Hfail].
        apply Hstep. simpl in Hlen. lia. }
      destruct r1 as [|[cc|c] r2]; try exact Hfail.
      destruct (between 224 a 239).
      { match goal with |- (if ?t then _ else _) = _ -> _ => destruct t end;
          [|exact Hfail].
        apply Hstep. simpl in Hlen. lia. }
      destruct r2 as [|[cd|d] r3]; try exact Hfail.
      match goal with |- (if ?t then _ else _) = _ -> _ => destruct t end;
        [|exact Hfail].
      apply Hstep. simpl in Hlen. lia.
Qed.

(** [decodeURIComponent] only ever throws a [URIError]. *)
Lemma decodeURIComponent_throws (s : string) (e : Exception) :
  decodeURIComponent s = Throw e -> e = URIError.
Proof.
  unfold decodeURIComponent.
  destruct (uri_tokens s) as [ts|e'] eqn:E.
  - apply (uri_assemble_throws _ ts e (le_n _)).
  - intros [= <-]. exact (uri_tokens_throws _ s e' (le_n _) E).
Qed.

Lemma decodeURIComponent_bad_escape (pre post : string) :
  starts_with_hex_pair post = false ->
  decodeURIComponent (pre ++ String "%" post) = Throw URIError.
Proof.
  intros H. unfold decodeURIComponent.
  now rewrite (uri_tokens_bad_escape _ pre post (le_n _) H).
Qed.

(** ** The JSON parser and its fuel *)

Lemma skip_ws_length (s : string) :
  (String.length (skip_ws s) <= String.length s)%nat.
Proof.
  induction s as [|c s IH]; simpl; [lia|].
  destruct (is_json_ws c); simpl; lia.
Qed.

Lemma eat_length (c : ascii) (s r : string) :
  eat c s = Some r -> String.length s = S (String.length r).
Proof.
  destruct s as [|c' s]; simpl; [discriminate|].
  destruct (Ascii.eqb c c'); [|discriminate].
  now intros [= ->].
Qed.

Lemma eat_skip_ws_length (c : ascii) (s r : string) :
  eat c (skip_ws s) = Some r -> (String.length r < String.length s)%nat.
Proof.
  intros H. apply eat_length in H.
  pose proof (skip_ws_length s). lia.
Qed.

Lemma strip_prefix_length (p s r : string) :
  strip_prefix p s = Some r -> (String.length r <= String.length s)%nat.
Proof.
  intros H. apply strip_prefix_inv in H. subst s.
  rewrite length_append. lia.
Qed.

Lemma span_digits_length (s ds r : string) :
  span_digits s = (ds, r) -> (String.length r <= String.length s)%nat.
Proof.
  revert ds r. induction s as [|c s IH]; simpl; intros ds r.
  - intros [= _ <-]. simpl. lia.
  - destruct (is_digit c).
    + destruct (span_digits s) as [ds' r'] eqn:E.
      intros [= _ <-]. specialize (IH _ _ eq_refl). lia.
    + intros [= _ <-]. simpl. lia.
Qed.

(** Case analysis on the innermost scrutinee of the goal. *)
Ltac split_match :=
  match goal with
  | |- context [match ?x with _ => _ end] =>
      lazymatch x with
      | context [match _ with _ => _ end] => fail
      | _ => destruct x eqn:?
      end
  end.

(** What the parsers of this section consumed, as facts on lengths. *)
Ltac consumed :=
  repeat match goal with
    | H : eat _ (skip_ws _) = Some _ |- _ => apply eat_skip_ws_length in H
    | H : eat _ _ = Some _ |- _ => apply eat_length in H
    | H : strip_prefix _ _ = Some _ |- _ => apply strip_prefix_length in H
    | H : span_digits _ = (_, _) |- _ => apply span_digits_length in H
    end.

Ltac finish_length :=
  intros; try discriminate;
  repeat match goal with
    | H : Some _ = Some _ |- _ => injection H as H; try subst
    | H : (_, _) = (_, _) |- _ => injection H as H; try subst
    end;
  consumed; simpl in *; lia.

Lemma parse_digits1_length (s ds r : string) :
  parse_digits1 s = Some (ds, r) ->
  (String.length r <= String.length s)%nat.
Proof.
  unfold parse_digits1. repeat split_match; intros H; finish_length.
Qed.

Lemma parse_exponent_length (e s l r : string) :
  parse_exponent e s = Some (l, r) ->
  (String.length r <= String.length s)%nat.
Proof.
  unfold parse_exponent. repeat split_match; intros H;
    repeat match goal with
      | H : parse_digits1 _ = Some _ |- _ => apply parse_digits1_length in H
      end; finish_length.
Qed.

Lemma parse_number_length (s l r : string) :
  parse_number s = Some (l, r) ->
  (String.length r <= String.length s)%nat.
Proof.
  unfold parse_number. repeat split_match; intros H;
    repeat match goal with
      | H : parse_digits1 _ = Some _ |- _ => apply parse_digits1_length in H
      | H : parse_exponent _ _ = Some _ |- _ =>
          apply parse_exponent_length in H
      end; finish_length.
Qed.

Lemma parse_literal_length (s : string) (v : Json) (r : string) :
  parse_literal s = Some (v, r) ->
  (String.length r <= String.length s)%nat.
Proof.
  unfold parse_literal. repeat split_match; intros H;
    repeat match goal with
      | H : parse_number _ = Some _ |- _ => apply parse_number_length in H
      end; finish_length.
Qed.

Lemma parse_string_body_length (n : nat) : forall (s body r : string),
  (String.length s <= n)%nat ->
  parse_string_body s = Some (body, r) ->
  (String.length r < String.length s)%nat.
Proof.
  induction n as [|n IH]; intros s body r Hlen.
  - destruct s; [discriminate | simpl in Hlen; lia].
  - destruct s as [|c s]; [discriminate|].
    unfold parse_string_body; fold parse_string_body.
    repeat split_match; intros H;
      repeat match goal with
        | H : parse_string_body _ = Some _ |- _ =>
            apply IH in H; [|simpl in *; lia]
        end; finish_length.
Qed.

Lemma parse_string_body_rest (s body r : string) :
  parse_string_body s = Some (body, r) ->
  (String.length r < String.length s)%nat.
Proof. apply (parse_string_body_length _ s body r (le_n _)). Qed.

Lemma parse_literal_skip_ws_length (s : string) (v : Json) (r : string) :
  parse_literal (skip_ws s) = Some (v, r) ->
  (String.length r <= String.length s)%nat.
Proof.
  intros H. apply parse_literal_length in H.
  pose proof (skip_ws_length s). lia.
Qed.

(** No parser gives back more than it was given. *)
Lemma parse_rest_length (fuel : nat) : forall s : string,
  (forall v r, parse_value fuel s = Some (v, r) ->
               (String.length r <= String.length s)%nat)
  /\ (forall ms r, parse_members fuel s = Some (ms, r) ->
                   (String.length r <= String.length s)%nat)
  /\ (forall es r, parse_elements fuel s = Some (es, r) ->
                   (String.length r <= String.length s)%nat).
Proof.
  induction fuel as [|fuel IH]; intros s.
  - repeat split; discriminate.
  - repeat split; intros x r; simpl; cbv zeta;
      repeat split_match; intros H;
      repeat match goal with
        | H : parse_value fuel _ = Some _ |- _ => apply IH in H
        | H : parse_members fuel _ = Some _ |- _ => apply IH in H
        | H : parse_elements fuel _ = Some _ |- _ => apply IH in H
        | H : parse_string_body _ = Some _ |- _ =>
            apply parse_string_body_rest in H
        | H : parse_literal (skip_ws _) = Some _ |- _ =>
            apply parse_literal_skip_ws_length in H
        end; finish_length.
Qed.

(** Bounds on what is left, from the hypotheses at hand. *)
Ltac rest_bounds :=
  repeat match goal with
    | H : parse_value _ _ = Some _ |- _ => apply parse_rest_length in H
    | H : parse_string_body _ = Some _ |- _ =>
        apply parse_string_body_rest in H
    end;
  consumed; simpl in *; lia.

(** With two units of fuel for each character of the input (and one or
    two more), the parsers do not depend on the fuel. *)
Lemma parse_fuel_stable (f1 : nat) : forall (f2 : nat) (s : string),
  ((2 * String.length s + 1 <= f1)%nat ->
   (2 * String.length s + 1 <= f2)%nat ->
   parse_value f1 s = parse_value f2 s)
  /\ ((2 * String.length s + 1 <= f1)%nat ->
      (2 * String.length s + 1 <= f2)%nat ->
      parse_members f1 s = parse_members f2 s)
  /\ ((2 * String.length s + 2 <= f1)%nat ->
      (2 * String.length s + 2 <= f2)%nat ->
      parse_elements f1 s = parse_elements f2 s).
Proof.
  induction f1 as [|f1 IH]; intros f2 s.
  - repeat split; intros H; lia.
  - destruct f2 as [|f2]; [repeat split; intros H1 H2; lia|].
    repeat split; intros H1 H2; simpl; cbv zeta;
      repeat first
        [ match goal with
          | |- context [parse_value f1 ?x] =>
              rewrite (proj1 (IH f2 x)) by rest_bounds
          | |- context [parse_members f1 ?x] =>
              rewrite (proj1 (proj2 (IH f2 x))) by rest_bounds
          | |- context [parse_elements f1 ?x] =>
              rewrite (proj2 (proj2 (IH f2 x))) by rest_bounds
          end
        | split_match ];
      reflexivity.
Qed.

(** [JSON.parse] reads its text with fuel to spare: more fuel gives the
    same result. *)
Lemma parse_value_fuel (text : string) (fuel : nat) :
  (2 * String.length text + 2 <= fuel)%nat ->
  parse_value fuel text = parse_value (2 * String.length text + 2) text.
Proof.
  intros H. apply parse_fuel_stable; lia.
Qed.

(** [JSON.parse] only ever throws a [SyntaxError]. *)
Lemma JSON_parse_throws (text : string) (e : Exception) :
  JSON_parse text = Throw e -> e = SyntaxError.
Proof.
  unfold JSON_parse.
  destruct (parse_value _ text) as [[v r]|]; [|intros [= <-]; reflexivity].
  destruct (skip_ws r); [discriminate | intros [= <-]; reflexivity].
Qed.

(** ** Context token claims *)

(** C1, as the claim states it: a malformed parameter would give the
    empty object.  [deserializeJson] has no handler around its two calls,
    and the exception of either reaches the caller; [undefined] is what
    the frame route writes into the image URL when the request carried
    no previous context. *)
Lemma deserializeJson_throws_on_malformed_input :
  deserializeJson (Some "%") = Throw URIError
  /\ deserializeJson (Some "{") = Throw SyntaxError
  /\ deserializeJson (Some "undefined") = Throw SyntaxError.
Proof. repeat split; reflexivity. Qed.

(** C1, amended.  When the parameter is absent, [deserializeJson] returns
    the empty object.  When it is malformed, the failure is not
    swallowed: a [%] that is not followed by two hexadecimal digits makes
    the call throw a [URIError], and a parameter that decodes to a text
    [JSON.parse] rejects makes it throw a [SyntaxError]; it throws
    nothing else. *)
Theorem deserializeJson_default_and_failures :
  deserializeJson None = Normal (JObject [])
  /\ (forall pre post : string,
         starts_with_hex_pair post = false ->
         deserializeJson (Some (pre ++ String "%" post)%string)
         = Throw URIError)
  /\ (forall data text : string,
         decodeURIComponent data = Normal text ->
         JSON_parse text = Throw SyntaxError ->
         deserializeJson (Some data) = Throw SyntaxError)
  /\ (forall (data : option string) (e : Exception),
         deserializeJson data = Throw e ->
         e = URIError \/ e = SyntaxError).
Proof.
  split; [reflexivity|]. split; [|split].
  - intros pre post H. unfold deserializeJson. simpl nullish.
    now rewrite decodeURIComponent_bad_escape.
  - intros data text Hd Hp. unfold deserializeJson. simpl nullish.
    now rewrite Hd.
  - intros data e. unfold deserializeJson.
    destruct (decodeURIComponent (nullish data "{}")) as [s|e'] eqn:E.
    + intros H. right. exact (JSON_parse_throws _ _ H).
    + intros [= <-]. left. exact (decodeURIComponent_throws _ _ E).
Qed.

Lemma deserializeJson_default_and_failures_witness :
  deserializeJson (Some "%7B%2x") = Throw URIError
  /\ deserializeJson (Some "%7B") = Throw SyntaxError.
Proof.
  destruct deserializeJson_default_and_failures as (_ & Hu & Hs & _).
  split.
  - apply (Hu "%7B" "2x"). reflexivity.
  - apply (Hs "%7B" "{"); reflexivity.
Defined.

(** * Further properties *)

(** ** The named properties of a document *)

Lemma classify_valid_name (t : HTMLMetaElement) (name : string) :
  validPropertyNames_has name = true ->
  attr_property t = Some name ->
  classify t = NamedProperty name (nullish (attr_content t) "").
Proof.
  intros Hv H. unfold classify. rewrite H.
  destruct name as [|c name]; [discriminate Hv|].
  now rewrite Hv.
Qed.

Lemma scan_tag_property (name : string) (st : Scan.state)
    (t : HTMLMetaElement) :
  validPropertyNames_has name = true ->
  map_get String.eqb (Scan.properties (scan_tag st t)) name
  = match attr_property t with
    | Some p =>
        if String.eqb p name
        then Some (nullish (attr_content t) "")
        else map_get String.eqb (Scan.properties st) name
    | None => map_get String.eqb (Scan.properties st) name
    end.
Proof.
  intros Hv. destruct (attr_property t) as [p|] eqn:Ep.
  - destruct (String.eqb_spec p name) as [->|Hne].
    + rewrite scan_tag_classify, (classify_valid_name t name Hv Ep). simpl.
      apply map_get_set_same, String.eqb_eq.
    + rewrite scan_tag_classify.
      destruct (classify t) as [|name' c| |] eqn:E; simpl; try reflexivity;
        [|now rewrite scan_button_properties].
      apply classify_property in E as [E _].
      rewrite Ep in E. injection E as <-.
      apply map_get_set_other; [apply String.eqb_eq|].
      intros H. now apply Hne.
  - rewrite scan_tag_classify. unfold classify. now rewrite Ep.
Qed.

Lemma scan_property_contents (name : string)
    (metaTags : list HTMLMetaElement) (st : Scan.state) :
  validPropertyNames_has name = true ->
  map_get String.eqb (Scan.properties (fold_left scan_tag metaTags st)) name
  = match property_contents name metaTags with
    | [] => map_get String.eqb (Scan.properties st) name
    | c :: l => Some (last (c :: l) "")
    end.
Proof.
  intros Hv. revert st.
  induction metaTags as [|t l IH]; intros st; [reflexivity|].
  simpl fold_left. rewrite IH, (scan_tag_property name st t Hv).
  unfold property_contents at 2. simpl flat_map.
  fold (property_contents name l).
  destruct (attr_property t) as [p|]; [|reflexivity].
  destruct (String.eqb p name); [|reflexivity].
  simpl app. destruct (property_contents name l); reflexivity.
Qed.

(** What the decoder reads for a recognised name: the content of its
    last tag, or [default] when the document has no such tag. *)
Lemma scan_property_last (name default : string)
    (metaTags : list HTMLMetaElement) :
  validPropertyNames_has name = true ->
  nullish (map_get String.eqb (Scan.properties (scan metaTags)) name) default
  = last (property_contents name metaTags) default.
Proof.
  intros Hv. unfold scan. rewrite (scan_property_contents name _ _ Hv).
  destruct (property_contents name metaTags) as [|c l]; [reflexivity|].
  simpl nullish. revert c. induction l as [|d l IH]; intros c; [reflexivity|].
  change (last (c :: d :: l) "") with (last (d :: l) "").
  change (last (c :: d :: l) default) with (last (d :: l) default).
  apply IH.
Qed.

(** X1.  For every document, [imageUrl], [postUrl], [title], the debug
    [image] and [version] are the content of the last [fc:frame:image],
    [fc:frame:post_url], [og:title], [og:image] and [fc:frame] tag; without
    such a tag they are empty, and [version] is [vNext].  [input] is set,
    to the content of the last [fc:frame:input:text] tag, exactly when
    that content is not empty. *)
Theorem named_properties_last_tag_wins (metaTags : list HTMLMetaElement) :
  let f := htmlToFrame metaTags in
  Frame.imageUrl f = last (property_contents "fc:frame:image" metaTags) ""
  /\ Frame.postUrl f
     = last (property_contents "fc:frame:post_url" metaTags) ""
  /\ Frame.title f = last (property_contents "og:title" metaTags) ""
  /\ Debug.image (Frame.debug f)
     = last (property_contents "og:image" metaTags) ""
  /\ Frame.version f = last (property_contents "fc:frame" metaTags) "vNext"
  /\ Frame.input f
     = match last (property_contents "fc:frame:input:text" metaTags) "" with
       | EmptyString => None
       | t => Some (mkFrameInput t)
       end.
Proof.
  simpl. repeat split;
    try (apply scan_property_last; reflexivity).
  pose proof (scan_property_last "fc:frame:input:text" "" metaTags eq_refl)
    as H.
  rewrite <- H.
  destruct (map_get String.eqb (Scan.properties (scan metaTags))
              "fc:frame:input:text") as [[|c s]|]; reflexivity.
Qed.

(** X2.  [postUrlTooLong] is true exactly when the content of the last
    [fc:frame:post_url] tag has more than 2048 UTF-16 code units, which
    is what [length] counts: 2048 is not too long, 2049 is, and a
    character outside ASCII counts for one unit (two beyond U+FFFF),
    not for the octets of its UTF-8 encoding. *)
Theorem postUrlTooLong_iff (metaTags : list HTMLMetaElement) :
  Debug.postUrlTooLong (Frame.debug (htmlToFrame metaTags)) = true
  <-> (2048 < utf16_length
                (last (property_contents "fc:frame:post_url" metaTags) ""))%nat.
Proof.
  rewrite <- (scan_property_last "fc:frame:post_url" "" metaTags eq_refl).
  unfold htmlToFrame. simpl Debug.postUrlTooLong.
  rewrite Z.gtb_ltb, Z.ltb_lt. lia.
Qed.

(** A post URL of 1030 characters, 1020 of them of two octets each, is
    not too long, although it has 2050 octets. *)
Lemma postUrlTooLong_iff_witness :
  Debug.postUrlTooLong
    (Frame.debug
       (htmlToFrame
          [meta "fc:frame:post_url"
             ("https://a/"
              ++ repeat_text (String "195" (String "169" EmptyString)) 1020)]))
  = false.
Proof.
  destruct (Debug.postUrlTooLong _) eqn:E; [|reflexivity].
  apply (proj1 (postUrlTooLong_iff _)) in E.
  apply (proj2 (Nat.ltb_lt _ _)) in E. vm_compute in E. discriminate E.
Defined.

(** ** The decoded buttons *)

Lemma classify_plain_range (t : HTMLMetaElement) (i : Z) (c : string) :
  classify t = PlainButton i c -> 1 <= i <= 4.
Proof.
  unfold classify.
  destruct (attr_property t) as [[|a p]|]; try discriminate.
  destruct (validPropertyNames_has (String a p)); [discriminate|].
  destruct (buttonRegex_match (String a p)) as [m|] eqn:E; [|discriminate].
  destruct (buttonRegex_match_inv _ _ E) as (index & Hp & Hr).
  rewrite Hp. destruct (group2 m); [discriminate|].
  now intros [= <- _].
Qed.

Lemma scan_tag_keys_range (st : Scan.state) (t : HTMLMetaElement) :
  Forall (fun k => 1 <= k <= 4) (map fst (Scan.buttonMap st)) ->
  Forall (fun k => 1 <= k <= 4) (map fst (Scan.buttonMap (scan_tag st t))).
Proof.
  intros H. rewrite scan_tag_classify.
  destruct (classify t) as [| | |i c] eqn:E; simpl; try assumption.
  rewrite scan_button_buttonMap. rewrite Forall_forall in *.
  intros k Hk. apply (map_set_keys Z.eqb Z.eqb_eq) in Hk as [->|Hk].
  - exact (classify_plain_range t i c E).
  - now apply H.
Qed.

Lemma scan_keys_range (metaTags : list HTMLMetaElement) :
  Forall (fun k => 1 <= k <= 4) (map fst (Scan.buttonMap (scan metaTags))).
Proof.
  unfold scan.
  assert (H : forall l st,
             Forall (fun k => 1 <= k <= 4) (map fst (Scan.buttonMap st)) ->
             Forall (fun k => 1 <= k <= 4)
               (map fst (Scan.buttonMap (fold_left scan_tag l st)))).
  { induction l as [|t l IH]; intros st Hst; simpl;
      [exact Hst | apply IH, scan_tag_keys_range, Hst]. }
  apply H. constructor.
Qed.

(** A strictly increasing list of integers between [lo] and [hi] has at
    most [hi - lo + 1] elements. *)
Lemma sorted_range_length (l : list FrameButton) : forall lo hi : Z,
  StronglySorted lt_index l ->
  Forall (fun b => lo <= index b <= hi) l ->
  Z.of_nat (List.length l) <= Z.max 0 (hi - lo + 1).
Proof.
  induction l as [|b l IH]; intros lo hi Hs Hr; simpl List.length; [lia|].
  apply StronglySorted_inv in Hs as [Hs Hall].
  inversion Hr as [|? ? Hb Hr']; subst.
  assert (Hl : Forall (fun b' => lo + 1 <= index b' <= hi) l).
  { rewrite Forall_forall in *. intros b' Hin.
    specialize (Hall b' Hin). specialize (Hr' b' Hin).
    unfold lt_index in Hall. lia. }
  specialize (IH (lo + 1) hi Hs Hl). lia.
Qed.

(** X3.  For every document the decoder returns at most four buttons,
    each with an index between 1 and 4. *)
Theorem at_most_four_buttons (metaTags : list HTMLMetaElement) :
  (List.length (Frame.buttons (htmlToFrame metaTags)) <= 4)%nat
  /\ Forall (fun b => 1 <= index b <= 4) (Frame.buttons (htmlToFrame metaTags)).
Proof.
  assert (Hr : Forall (fun b => 1 <= index b <= 4)
                 (Frame.buttons (htmlToFrame metaTags))).
  { rewrite Forall_forall. intros b Hin.
    apply htmlToFrame_buttons_In in Hin as (e & Hget & _).
    apply (map_get_In Z.eqb Z.eqb_eq) in Hget.
    pose proof (scan_keys_range metaTags) as Hk.
    rewrite Forall_forall in Hk. apply Hk.
    now apply (in_map fst) in Hget. }
  split; [|exact Hr].
  pose proof (sorted_range_length _ 1 4
                (htmlToFrame_buttons_sorted metaTags) Hr). lia.
Qed.

(** *** The type of a button *)

Lemma scan_button_buttonActionMap (i : Z) (content : string)
    (st : Scan.state) :
  Scan.buttonActionMap (scan_button i content st) = Scan.buttonActionMap st.
Proof.
  unfold scan_button.
  destruct (Scan.currentButtonIndex st + 1 =? i); reflexivity.
Qed.

Lemma scan_tag_action_other (st : Scan.state) (t : HTMLMetaElement) (i : Z) :
  (forall c, classify t <> ButtonAction i c) ->
  map_get Z.eqb (Scan.buttonActionMap (scan_tag st t)) i
  = map_get Z.eqb (Scan.buttonActionMap st) i.
Proof.
  intros H. rewrite scan_tag_classify.
  destruct (classify t) as [| |j c|j c] eqn:E; simpl; try reflexivity.
  - apply map_get_set_other; [apply Z.eqb_eq|].
    intros ->. now apply (H c).
  - now rewrite scan_button_buttonActionMap.
Qed.

Lemma scan_action_other (l : list HTMLMetaElement) (st : Scan.state) (i : Z) :
  (forall u c, In u l -> classify u <> ButtonAction i c) ->
  map_get Z.eqb (Scan.buttonActionMap (fold_left scan_tag l st)) i
  = map_get Z.eqb (Scan.buttonActionMap st) i.
Proof.
  revert st. induction l as [|t l IH]; intros st H; simpl; [reflexivity|].
  rewrite IH.
  - apply scan_tag_action_other. intros c. apply H. now left.
  - intros u c Hin. apply H. now right.
Qed.

Lemma htmlToFrame_button_type (metaTags : list HTMLMetaElement)
    (b : FrameButton) :
  In b (Frame.buttons (htmlToFrame metaTags)) ->
  type b = nullish (map_get Z.eqb (Scan.buttonActionMap (scan metaTags))
                      (index b)) "post".
Proof.
  intros Hin. apply htmlToFrame_buttons_In in Hin as (e & _ & Hb).
  rewrite Hb at 1. reflexivity.
Qed.

(** X4.  The type of a decoded button is the content of the last tag of
    its index that carries the [:action] or the [:target] suffix (either
    suffix sets the type), wherever that tag stands in the document; it
    is [post] when the document has no such tag. *)
Theorem button_type_from_last_suffixed_tag
    (metaTags : list HTMLMetaElement) (b : FrameButton) :
  In b (Frame.buttons (htmlToFrame metaTags)) ->
  (forall before t after content,
      metaTags = before ++ t :: after ->
      classify t = ButtonAction (index b) content ->
      (forall u c, In u after -> classify u <> ButtonAction (index b) c) ->
      type b = content)
  /\ ((forall u c, In u metaTags -> classify u <> ButtonAction (index b) c) ->
      type b = "post").
Proof.
  intros Hin. rewrite (htmlToFrame_button_type metaTags b Hin). split.
  - intros before t after content -> Ht Hafter.
    unfold scan. rewrite fold_left_app. simpl fold_left.
    rewrite (scan_action_other after _ _ Hafter).
    rewrite scan_tag_classify, Ht. simpl.
    now rewrite (map_get_set_same Z.eqb Z.eqb_eq).
  - intros Hnone. unfold scan.
    now rewrite (scan_action_other metaTags _ _ Hnone).
Qed.

Lemma button_type_from_last_suffixed_tag_witness :
  In (mkFrameButton 1 (TitleString "Open") "https://a/b")
    (Frame.buttons
       (htmlToFrame [meta "fc:frame:button:1:action" "link";
                     meta "fc:frame:button:1" "Open";
                     meta "fc:frame:button:1:target" "https://a/b"]))
  /\ type (mkFrameButton 1 (TitleString "Open") "https://a/b")
     = "https://a/b".
Proof.
  assert (Hin : In (mkFrameButton 1 (TitleString "Open") "https://a/b")
                  (Frame.buttons
                     (htmlToFrame
                        [meta "fc:frame:button:1:action" "link";
                         meta "fc:frame:button:1" "Open";
                         meta "fc:frame:button:1:target" "https://a/b"])))
    by (left; reflexivity).
  split; [exact Hin|].
  destruct (button_type_from_last_suffixed_tag
              [meta "fc:frame:button:1:action" "link";
               meta "fc:frame:button:1" "Open";
               meta "fc:frame:button:1:target" "https://a/b"] _ Hin)
    as [H _].
  apply (H [meta "fc:frame:button:1:action" "link";
            meta "fc:frame:button:1" "Open"]
           (meta "fc:frame:button:1:target" "https://a/b") []).
  - reflexivity.
  - reflexivity.
  - intros u c [].
Defined.

(** ** The ordering diagnostics *)

(** Once a flag is set, every later index is recorded. *)
Lemma order_step_flagged (l : list Z) : forall current missing out_of_order
    invalid,
  missing || out_of_order = true ->
  exists current' missing' out_of_order',
    fold_left order_step l (current, missing, out_of_order, invalid)
    = (current', missing', out_of_order', invalid ++ l)
    /\ missing' || out_of_order' = true.
Proof.
  induction l as [|i l IH]; intros current missing out_of_order invalid Hf.
  - exists current, missing, out_of_order. now rewrite app_nil_r.
  - cbn [fold_left]. unfold order_step at 2.
    destruct (current >=? i) eqn:Ege;
      destruct (current + 1 =? i) eqn:Eeq;
      destruct missing; destruct out_of_order; try discriminate Hf;
      simpl orb; cbv iota;
      match goal with
      | |- context [fold_left order_step l (?c, ?m, ?o, ?inv)] =>
          destruct (IH c m o inv eq_refl) as (c' & m' & o' & H1 & H2);
          exists c', m', o'; rewrite H1, <- app_assoc; auto
      end.
Qed.

(** As long as no flag is set, the indices seen are 1, 2, 3, ... *)
Lemma order_step_clean (l : list Z) : forall (a : nat) current missing
    out_of_order invalid,
  fold_left order_step l (Z.of_nat a, false, false, [])
  = (current, missing, out_of_order, invalid) ->
  exists j : nat,
    l = map Z.of_nat (seq (S a) j) ++ invalid
    /\ missing || out_of_order = negb (Nat.eqb (List.length invalid) 0)
    /\ (forall i rest, invalid = i :: rest -> i <> Z.of_nat (S (a + j))).
Proof.
  induction l as [|i l IH]; intros a current missing out_of_order invalid.
  - simpl. intros [= <- <- <- <-]. exists 0%nat. repeat split; discriminate.
  - cbn [fold_left]. unfold order_step at 2.
    destruct (Z.eqb_spec (Z.of_nat a + 1) i) as [Heq|Hne].
    + replace (Z.of_nat a >=? i) with false
        by (symmetry; rewrite Z.geb_leb; apply Z.leb_gt; lia).
      simpl orb. cbv iota.
      replace i with (Z.of_nat (S a)) by lia.
      intros H. destruct (IH (S a) _ _ _ _ H) as (j & Hl & Hf & Hn).
      exists (S j). split; [|split].
      * simpl seq. simpl map. simpl app. now rewrite Hl.
      * exact Hf.
      * intros i' rest Hi. specialize (Hn i' rest Hi).
        replace (a + S j)%nat with (S a + j)%nat by lia. exact Hn.
    + assert (Hflag : exists o,
                 (if Z.of_nat a >=? i then true else false) = o) by eauto.
      destruct Hflag as [o Ho]. rewrite Ho. simpl orb.
      replace (o || true) with true by (destruct o; reflexivity).
      cbv iota. simpl app.
      destruct (order_step_flagged l (Z.of_nat a) true o [i])
        as (c' & m' & o' & H1 & H2); [reflexivity|].
      rewrite H1. intros [= <- <- <- <-].
      exists 0%nat. split; [reflexivity|]. split.
      * rewrite H2. reflexivity.
      * intros i' rest [= <- _]. rewrite Nat.add_0_r. lia.
Qed.

(** X5.  For every document, the plain button indices split into a first
    part 1, 2, ..., j that is in order and a rest; [invalidButtons] is
    exactly that rest (the first index out of sequence and every plain
    button index after it), and the reported [buttonsAreOutOfOrder] is
    true exactly when that rest is not empty. *)
Theorem invalidButtons_is_rest_after_first_break
    (metaTags : list HTMLMetaElement) :
  let d := Frame.debug (htmlToFrame metaTags) in
  exists j : nat,
    plain_button_indices metaTags
    = indices_up_to j ++ Debug.invalidButtons d
    /\ (forall i rest, Debug.invalidButtons d = i :: rest ->
                       i <> Z.of_nat (S j))
    /\ (Debug.buttonsAreOutOfOrder d = true <-> Debug.invalidButtons d <> []).
Proof.
  cbv zeta.
  destruct (fold_left order_step (plain_button_indices metaTags)
              (0, false, false, [])) as [[[current missing] ooo] invalid]
    eqn:E.
  destruct (htmlToFrame_order metaTags _ _ _ _ E) as [Hflag Hinv].
  destruct (order_step_clean _ 0%nat _ _ _ _ E) as (j & Hl & Hf & Hn).
  exists j. rewrite Hinv, Hflag. split; [exact Hl|]. split; [exact Hn|].
  rewrite Hf. destruct invalid; simpl; split; congruence.
Qed.

(** ** Tags the decoder passes over *)

Lemma scan_tag_skipped (st : Scan.state) (t : HTMLMetaElement) :
  is_skipped t = true -> scan_tag st t = st.
Proof.
  unfold is_skipped. intros H. rewrite scan_tag_classify.
  destruct (classify t); try discriminate. reflexivity.
Qed.

Lemma scan_filter_skipped (l : list HTMLMetaElement) (st : Scan.state) :
  fold_left scan_tag (filter (fun t => negb (is_skipped t)) l) st
  = fold_left scan_tag l st.
Proof.
  revert st. induction l as [|t l IH]; intros st; [reflexivity|].
  simpl. destruct (is_skipped t) eqn:E; simpl.
  - now rewrite (scan_tag_skipped st t E).
  - apply IH.
Qed.

(** X6.  Tags without a [property], with an empty one, or with a
    [property] that is neither a recognised name nor a button pattern
    change nothing but [htmlTags]: the frame decoded from a document is
    the frame decoded from the document without those tags, with the raw
    dump of all tags put in. *)
Theorem skipped_tags_only_show_in_htmlTags (metaTags : list HTMLMetaElement) :
  htmlToFrame metaTags
  = with_htmlTags (map outerHTML metaTags)
      (htmlToFrame (filter (fun t => negb (is_skipped t)) metaTags)).
Proof.
  unfold htmlToFrame, with_htmlTags. simpl.
  unfold scan. rewrite scan_filter_skipped. reflexivity.
Qed.

(** A match of [buttonRegex] is a suffix of the property. *)
Lemma buttonRegex_match_is_suffix (s : string) (m : MatchArray) :
  buttonRegex_match s = Some m ->
  exists pre,
    s = (pre ++ matched_text m)%string
    /\ In (group1 m) ["1"; "2"; "3"; "4"]%string
    /\ In (group2 m) [None; Some "action"; Some "target"].
Proof.
  induction s as [|c s IH].
  - simpl. discriminate.
  - rewrite buttonRegex_match_eq.
    destruct (match_here (String c s)) as [m'|] eqn:E.
    + intros [= <-]. apply match_here_inv in E as (E & H1 & H2).
      exists EmptyString. auto.
    + intros H. destruct (IH H) as (pre & Hs & H1 & H2).
      exists (String c pre). rewrite Hs. auto.
Qed.

Lemma matched_text_button_property (m : MatchArray) :
  In (group1 m) ["1"; "2"; "3"; "4"]%string ->
  In (group2 m) [None; Some "action"; Some "target"] ->
  exists n,
    1 <= n <= 4 /\ valid_suffix (group2 m)
    /\ matched_text m = button_property n (group2 m).
Proof.
  destruct m as [g1 g2]. simpl group1. simpl group2.
  intros H1 H2.
  assert (Hs : valid_suffix g2).
  { unfold valid_suffix. destruct H2 as [<-|[<-|[<-|[]]]]; auto. }
  destruct H1 as [<-|[<-|[<-|[<-|[]]]]];
    [exists 1 | exists 2 | exists 3 | exists 4];
    (split; [lia|]); (split; [exact Hs | reflexivity]).
Qed.

(** X7.  The converse of the button pattern: a tag whose [property] is
    no recognised name and does not end with [fc:frame:button:n], [n]
    from 1 to 4, with or without [:action] or [:target], leaves the scan
    as it was.  So a button tag of index 0, 5 or more is never
    decoded. *)
Theorem other_tags_leave_scan_unchanged (st : Scan.state)
    (t : HTMLMetaElement) :
  (forall name, attr_property t = Some name ->
                validPropertyNames_has name = false) ->
  (forall pre n suffix,
      1 <= n <= 4 -> valid_suffix suffix ->
      attr_property t <> Some (pre ++ button_property n suffix)%string) ->
  scan_tag st t = st.
Proof.
  intros Hname Hpat. unfold scan_tag, buttonRegex_test.
  destruct (attr_property t) as [[|c p]|] eqn:Ep; try reflexivity.
  rewrite (Hname _ eq_refl).
  destruct (buttonRegex_match (String c p)) as [m|] eqn:E; [|reflexivity].
  exfalso.
  destruct (buttonRegex_match_is_suffix _ _ E) as (pre & Hs & H1 & H2).
  destruct (matched_text_button_property m H1 H2) as (n & Hn & Hv & Hm).
  apply (Hpat pre n (group2 m) Hn Hv). now rewrite Hs, Hm.
Qed.

Lemma other_tags_leave_scan_unchanged_witness :
  scan_tag Scan.init (mkMeta (Some "fc:frame:button:5") (Some "Five") "")
  = Scan.init.
Proof.
  apply (other_tags_leave_scan_unchanged Scan.init
           (mkMeta (Some "fc:frame:button:5") (Some "Five") "")).
  - intros name [= <-]. reflexivity.
  - intros pre n suffix Hn Hs [= Heq].
    pose proof (classify_button_property pre n suffix (Some "Five") ""
                  Hn Hs) as Hc.
    rewrite <- Heq in Hc. destruct suffix; discriminate Hc.
Defined.

(** ** What the encoder accepts *)

Lemma parseIntent_bad (x : Intent) (c : Counter) :
  is_bad_intent x = true -> parseIntent x c = Throw TypeError.
Proof.
  destruct x as [v|n]; simpl; [|discriminate].
  intros H. unfold parseIntent. now rewrite H.
Qed.

Lemma parseIntent_good (x : Intent) (c : Counter) :
  is_bad_intent x = false ->
  exists r c', parseIntent x c = Normal (r, c').
Proof.
  unfold parseIntent, bind, ret, button_post_increment.
  destruct x as [v|[tag props children|tag props children
                   |ty tag props children]]; simpl; intros H.
  - rewrite H. do 2 eexists; reflexivity.
  - do 2 eexists; reflexivity.
  - do 2 eexists; reflexivity.
  - destruct (String.eqb ty "button"); [do 2 eexists; reflexivity|].
    destruct (String.eqb ty "text-input"); do 2 eexists; reflexivity.
Qed.

Lemma parseIntent_falsy (v : Value) (c c' : Counter) (r : option JSXNode) :
  parseIntent (ChildValue v) c = Normal (r, c') -> r = None.
Proof.
  unfold parseIntent. destruct (truthy v); [discriminate|].
  now intros [= <- _].
Qed.

Lemma mapM_parseIntent_bad (l : list Intent) : forall c : Counter,
  existsb is_bad_intent l = true ->
  mapM parseIntent l c = Throw TypeError.
Proof.
  induction l as [|x l IH]; intros c; simpl existsb; [discriminate|].
  rewrite mapM_cons. destruct (is_bad_intent x) eqn:E.
  - now rewrite (parseIntent_bad x c E).
  - simpl orb. intros H.
    destruct (parseIntent_good x c E) as (r & c1 & Hp). rewrite Hp.
    now rewrite (IH c1 H).
Qed.

Lemma mapM_parseIntent_good (l : list Intent) : forall c : Counter,
  existsb is_bad_intent l = false ->
  exists rs c',
    mapM parseIntent l c = Normal (rs, c')
    /\ List.length rs = List.length l.
Proof.
  induction l as [|x l IH]; intros c; simpl existsb.
  - intros _. exists [], c. split; reflexivity.
  - rewrite mapM_cons. intros H.
    apply orb_false_iff in H as [Hx Hl].
    destruct (parseIntent_good x c Hx) as (r & c1 & Hp). rewrite Hp.
    destruct (IH c1 Hl) as (rs & c' & Hm & Hlen). rewrite Hm.
    exists (r :: rs), c'. split; [reflexivity | simpl; now rewrite Hlen].
Qed.

(** [parseIntents] returns what the traversal returns. *)
Lemma parseIntents_of_traversed (intents : Intents)
    (rs : list (option JSXNode)) (c' : Counter) :
  mapM parseIntent (traversed intents) (mkCounter 1) = Normal (rs, c') ->
  exists encoded, parseIntents intents = Normal encoded
                  /\ outputs encoded = rs.
Proof.
  unfold parseIntents, parseIntents_from, traversed.
  destruct intents as [l|n].
  - intros H. unfold bind, ret. rewrite H. eexists. split; reflexivity.
  - destruct (first_child_is_object (children_of n)).
    + intros H. unfold bind, ret. rewrite H. eexists. split; reflexivity.
    + rewrite mapM_cons. unfold bind, ret.
      destruct (parseIntent (ChildNode n) (mkCounter 1)) as [[r c1]|e];
        [|discriminate].
      intros [= <- _]. eexists. split; reflexivity.
Qed.

Lemma parseIntents_of_traversed_throw (intents : Intents) (e : Exception) :
  mapM parseIntent (traversed intents) (mkCounter 1) = Throw e ->
  parseIntents intents = Throw e.
Proof.
  unfold parseIntents, parseIntents_from, traversed.
  destruct intents as [l|n].
  - intros H. unfold bind, ret. now rewrite H.
  - destruct (first_child_is_object (children_of n)).
    + intros H. unfold bind, ret. now rewrite H.
    + rewrite mapM_cons. unfold bind, ret.
      destruct (parseIntent (ChildNode n) (mkCounter 1)) as [[r c1]|e'];
        [discriminate|].
      now intros [= <-].
Qed.

(** X8.  The encoder throws, a [TypeError], exactly when one of the
    intents it traverses is a truthy value that is no node (a non-empty
    string, a non-zero number, [true], an array).  Otherwise it returns
    one output for each intent, and nothing ([undefined]) for each falsy
    intent. *)
Theorem parseIntents_throws_iff_truthy_non_node (intents : Intents) :
  (existsb is_bad_intent (traversed intents) = true ->
   parseIntents intents = Throw TypeError)
  /\ (existsb is_bad_intent (traversed intents) = false ->
      exists encoded,
        parseIntents intents = Normal encoded
        /\ List.length (outputs encoded) = List.length (traversed intents)
        /\ forall i v,
             nth_error (traversed intents) i = Some (ChildValue v) ->
             nth_error (outputs encoded) i = Some None).
Proof.
  split; intros H.
  - apply parseIntents_of_traversed_throw.
    now apply mapM_parseIntent_bad.
  - destruct (mapM_parseIntent_good _ (mkCounter 1) H)
      as (rs & c' & Hm & Hlen).
    destruct (parseIntents_of_traversed _ _ _ Hm) as (encoded & He & Ho).
    exists encoded. rewrite Ho. split; [exact He|]. split; [exact Hlen|].
    intros i v Hx.
    destruct (mapM_parseIntent_nth _ _ _ _ _ _ Hm Hx)
      as (r & c1 & Hr & Hp).
    now rewrite Hr, (parseIntent_falsy _ _ _ _ Hp).
Qed.

Lemma parseIntents_throws_iff_truthy_non_node_witness :
  parseIntents
    (IntentArray [ChildNode (ButtonNode [] [VString "Yes"]);
                  ChildValue (VString "stray text")])
  = Throw TypeError
  /\ exists encoded,
       parseIntents
         (IntentArray [ChildValue VNull;
                       ChildNode (ButtonNode [] [VString "Yes"]);
                       ChildValue (VBool false)])
       = Normal encoded
       /\ List.length (outputs encoded) = 3%nat.
Proof.
  split.
  - apply (proj1 (parseIntents_throws_iff_truthy_non_node
                    (IntentArray [ChildNode (ButtonNode [] [VString "Yes"]);
                                  ChildValue (VString "stray text")]))).
    reflexivity.
  - destruct (proj2 (parseIntents_throws_iff_truthy_non_node
                       (IntentArray
                          [ChildValue VNull;
                           ChildNode (ButtonNode [] [VString "Yes"]);
                           ChildValue (VBool false)])) eq_refl)
      as (encoded & He & Hlen & _).
    exists encoded. split; [exact He | exact Hlen].
Defined.

(** ** Decimal strings *)

Lemma string_of_uint_digits (d : Decimal.uint) :
  all_digits (NilEmpty.string_of_uint d).
Proof.
  unfold all_digits.
  induction d; simpl; constructor; try reflexivity; assumption.
Qed.

Lemma Z_to_string_digits (k : Z) : 0 <= k -> all_digits (Z_to_string k).
Proof.
  intros Hk. unfold Z_to_string. destruct k as [|p|p]; [| |lia].
  - repeat constructor.
  - simpl. unfold NilZero.string_of_uint.
    destruct (Pos.to_uint p) eqn:E; try (rewrite <- E);
      try apply string_of_uint_digits.
    now apply DecimalPos.Unsigned.to_uint_nonnil in E.
Qed.

Lemma Z_to_string_inj (a b : Z) : Z_to_string a = Z_to_string b -> a = b.
Proof.
  unfold Z_to_string. intros H.
  assert (Hn : forall z, Z.to_int z <> Decimal.Pos Decimal.Nil
                         /\ Z.to_int z <> Decimal.Neg Decimal.Nil).
  { intros [|p|p]; simpl; split; try discriminate;
      intros [= E]; now apply DecimalPos.Unsigned.to_uint_nonnil in E. }
  apply DecimalZ.to_int_inj.
  assert (Some (Z.to_int a) = Some (Z.to_int b)) as [= E]; [|exact E].
  rewrite <- (NilZero.isi (Z.to_int a)), <- (NilZero.isi (Z.to_int b));
    try apply Hn.
  now rewrite H.
Qed.

Lemma all_digits_append (a b : string) :
  all_digits (a ++ b) -> all_digits b.
Proof.
  unfold all_digits. induction a as [|c a IH]; simpl; [auto|].
  intros H. inversion H. auto.
Qed.

(** ** Buttons beyond the fourth *)

Lemma large_index_no_match (k : Z) :
  5 <= k ->
  buttonRegex_match ("fc:frame:button:" ++ Z_to_string k) = None.
Proof.
  intros Hk.
  destruct (buttonRegex_match ("fc:frame:button:" ++ Z_to_string k))
    as [m|] eqn:E; [|reflexivity].
  exfalso.
  destruct (buttonRegex_match_is_suffix _ _ E) as (pre & Hs & H1 & H2).
  pose proof (Z_to_string_digits k ltac:(lia)) as Hd.
  unfold matched_text in Hs.
  destruct pre as [|c1 pre].
  { simpl in Hs. injection Hs as Hs.
    destruct H2 as [H2|[H2|[H2|[]]]]; rewrite <- H2 in Hs.
    - destruct H1 as [H1|[H1|[H1|[H1|[]]]]]; rewrite <- H1 in Hs;
        [apply (Z_to_string_inj k 1) in Hs
        |apply (Z_to_string_inj k 2) in Hs
        |apply (Z_to_string_inj k 3) in Hs
        |apply (Z_to_string_inj k 4) in Hs]; lia.
    - destruct H1 as [H1|[H1|[H1|[H1|[]]]]]; rewrite <- H1 in Hs;
        rewrite Hs in Hd; unfold all_digits in Hd; simpl in Hd;
        inversion Hd as [|? ? _ Hd']; inversion Hd' as [|? ? Hc _];
        discriminate Hc.
    - destruct H1 as [H1|[H1|[H1|[H1|[]]]]]; rewrite <- H1 in Hs;
        rewrite Hs in Hd; unfold all_digits in Hd; simpl in Hd;
        inversion Hd as [|? ? _ Hd']; inversion Hd' as [|? ? Hc _];
        discriminate Hc. }
  simpl in Hs.
  do 15 (destruct pre as [|? pre]; [discriminate Hs|]).
  injection Hs as _ _ _ _ _ _ _ _ _ _ _ _ _ _ _ _ Hs.
  rewrite Hs in Hd. apply all_digits_append in Hd.
  unfold all_digits in Hd. simpl in Hd.
  inversion Hd as [|? ? Hc _]. discriminate Hc.
Qed.

Lemma large_index_skipped (k : Z) (content : option string) (html : string) :
  5 <= k ->
  is_skipped
    (mkMeta (Some ("fc:frame:button:" ++ Z_to_string k)%string) content html)
  = true.
Proof.
  intros Hk. unfold is_skipped, classify. cbn [attr_property].
  pose proof (large_index_no_match k Hk) as Hm.
  assert (Hv : validPropertyNames_has ("fc:frame:button:" ++ Z_to_string k)
               = false)
    by (generalize (Z_to_string k); intros D; reflexivity).
  destruct ("fc:frame:button:" ++ Z_to_string k)%string as [|c s'];
    [reflexivity|].
  now rewrite Hv, Hm.
Qed.

(** ** The encoder on button nodes *)

Lemma mapM_button_intents (nodes : list (Props * list Value)) :
  forall c : Counter,
  mapM parseIntent (button_intents nodes) c
  = Normal (encoded_buttons (button c) nodes,
            mkCounter (button c + Z.of_nat (List.length nodes))).
Proof.
  induction nodes as [|[p ch] nodes IH]; intros c.
  - simpl. unfold ret. destruct c as [b]. simpl. now rewrite Z.add_0_r.
  - unfold button_intents. simpl map. rewrite mapM_cons.
    unfold ButtonNode at 1. rewrite parseIntent_button.
    fold (button_intents nodes). rewrite IH.
    cbn [button encoded_buttons fst snd List.length].
    rewrite Nat2Z.inj_succ.
    replace (button c + 1 + Z.of_nat (List.length nodes))
      with (button c + Z.succ (Z.of_nat (List.length nodes))) by lia.
    reflexivity.
Qed.

Lemma encoded_buttons_rendered (nodes : list (Props * list Value)) :
  forall (k : Z) (metaTags : list HTMLMetaElement),
  Forall2 rendered_as (encoded_buttons k nodes) metaTags ->
  Forall2 (fun b t =>
             attr_property t
             = Some ("fc:frame:button:" ++ Z_to_string (index b))%string
             /\ TitleString (nullish (attr_content t) "") = title b)
    (numbered_buttons k nodes) metaTags.
Proof.
  induction nodes as [|[p ch] nodes IH]; intros k metaTags HF; simpl in *.
  - inversion HF. constructor.
  - rewrite Button_button_props in HF.
    inversion HF as [|r t rs ts Hr HF']; subst.
    constructor; [|now apply IH].
    destruct Hr as (_ & Hp & Hc). simpl in Hp, Hc. simpl.
    rewrite Hp, Hc. split; reflexivity.
Qed.

Lemma numbered_buttons_index (nodes : list (Props * list Value)) :
  forall (k : Z) (b : FrameButton),
  In b (numbered_buttons k nodes) -> k <= index b.
Proof.
  induction nodes as [|pc nodes IH]; intros k b; simpl; [intros []|].
  intros [<-|Hin]; [simpl; lia|]. specialize (IH _ _ Hin). lia.
Qed.

(** Tags rendered from buttons numbered 5 and up leave the scan as it
    was. *)
Lemma scan_large_buttons (bs : list FrameButton) :
  forall (metaTags : list HTMLMetaElement) (st : Scan.state),
  Forall (fun b => 5 <= index b) bs ->
  Forall2 (fun b t =>
             attr_property t
             = Some ("fc:frame:button:" ++ Z_to_string (index b))%string
             /\ TitleString (nullish (attr_content t) "") = title b)
    bs metaTags ->
  fold_left scan_tag metaTags st = st.
Proof.
  induction bs as [|b bs IH]; intros metaTags st Hk HF;
    inversion HF as [|? t ? ts [Hp _] HF']; subst; [reflexivity|].
  inversion Hk as [|? ? Hb Hk']; subst.
  simpl. rewrite (scan_tag_skipped st t).
  - now apply IH.
  - destruct t as [tp tc th]. simpl in Hp. subst tp.
    now apply large_index_skipped.
Qed.

Lemma htmlToFrame_same_scan (l l' : list HTMLMetaElement) :
  scan l = scan l' ->
  htmlToFrame l = with_htmlTags (map outerHTML l) (htmlToFrame l').
Proof.
  intros H. unfold htmlToFrame, with_htmlTags. simpl. now rewrite H.
Qed.

(** The tags as [getAttribute] shows them, one rendered button at a time. *)
Ltac rendered_buttons HF :=
  repeat match type of HF with
    | Forall2 _ (_ :: _) _ =>
        let t := fresh "t" in
        let Hp := fresh "Hp" in
        let Hc := fresh "Hc" in
        let HF' := fresh "HF" in
        inversion HF as [|? t ? ? [Hp Hc] HF']; subst; clear HF;
        rename HF' into HF;
        destruct t as [? ? ?]; cbn [attr_property attr_content] in Hp, Hc;
        cbn [index title] in Hp, Hc; subst
    | Forall2 _ [] _ => inversion HF; subst; clear HF
    end.

Lemma encoded_buttons_renderable (nodes : list (Props * list Value)) :
  forall k : Z,
  Forall2 rendered_as (encoded_buttons k nodes)
    (map meta_of_output (encoded_buttons k nodes)).
Proof.
  induction nodes as [|[p c] nodes IH]; intros k;
    cbn [encoded_buttons map fst snd]; [constructor|].
  rewrite Button_button_props. constructor; [|apply IH].
  repeat split.
Qed.

Lemma parseIntents_button_array (nodes : list (Props * list Value)) :
  parseIntents (IntentArray (button_intents nodes))
  = Normal (EncodedArray (encoded_buttons 1 nodes)).
Proof.
  unfold parseIntents, parseIntents_from, bind, ret.
  now rewrite mapM_button_intents.
Qed.

(** What the first four buttons decode to, whatever follows them. *)
Lemma decode_rendered_buttons (nodes : list (Props * list Value))
    (metaTags : list HTMLMetaElement) :
  Forall2 rendered_as (encoded_buttons 1 nodes) metaTags ->
  Frame.buttons (htmlToFrame metaTags) = numbered_buttons 1 (firstn 4 nodes)
  /\ Debug.buttonsAreOutOfOrder (Frame.debug (htmlToFrame metaTags)) = false
  /\ Debug.invalidButtons (Frame.debug (htmlToFrame metaTags)) = [].
Proof.
  intros HF. apply encoded_buttons_rendered in HF.
  destruct nodes as [|[p1 c1] [|[p2 c2] [|[p3 c3] [|[p4 c4] rest]]]];
    cbn [numbered_buttons firstn snd] in *;
    repeat match goal with
      | |- context [Value_toString (VArray ?c)] =>
          let s := fresh "s" in
          set (s := Value_toString (VArray c)) in *; clearbody s
      end.
  - rendered_buttons HF. repeat split; reflexivity.
  - rendered_buttons HF. rewrite <- Hc. repeat split; reflexivity.
  - rendered_buttons HF. rewrite <- Hc, <- Hc0. repeat split; reflexivity.
  - rendered_buttons HF. rewrite <- Hc, <- Hc0, <- Hc1.
    repeat split; reflexivity.
  - inversion HF as [|? t1 ? l1 [Hp1 Hc1] HF1]; subst; clear HF.
    inversion HF1 as [|? t2 ? l2 [Hp2 Hc2] HF2]; subst; clear HF1.
    inversion HF2 as [|? t3 ? l3 [Hp3 Hc3] HF3]; subst; clear HF2.
    inversion HF3 as [|? t4 ? l4 [Hp4 Hc4] HF4]; subst; clear HF3.
    assert (Hscan : scan (t1 :: t2 :: t3 :: t4 :: l4)
                    = scan [t1; t2; t3; t4]).
    { unfold scan. cbn [fold_left].
      eapply scan_large_buttons; [|exact HF4].
      rewrite Forall_forall. intros b Hb.
      apply numbered_buttons_index in Hb. lia. }
    rewrite (htmlToFrame_same_scan _ _ Hscan).
    unfold with_htmlTags.
    cbn [Frame.buttons Frame.debug Debug.buttonsAreOutOfOrder
         Debug.invalidButtons].
    destruct t1 as [? ? ?], t2 as [? ? ?], t3 as [? ? ?], t4 as [? ? ?].
    cbn [attr_property attr_content index title] in *. subst.
    rewrite <- Hc1, <- Hc2, <- Hc3, <- Hc4.
    repeat split; reflexivity.
Qed.

(** X9.  Encoding an array of any number of button nodes gives outputs
    that render to meta elements, and decoding those elements gives back
    the first four nodes, numbered 1 to 4 in order, each of type [post]
    with the text of its node as title; the ordering diagnostics stay
    clear.  A fifth button and any after it are dropped without a trace
    in the diagnostics. *)
Theorem buttons_round_trip_first_four (nodes : list (Props * list Value)) :
  exists outs,
    parseIntents (IntentArray (button_intents nodes))
    = Normal (EncodedArray outs)
    /\ (exists metaTags, Forall2 rendered_as outs metaTags)
    /\ forall metaTags,
         Forall2 rendered_as outs metaTags ->
         Frame.buttons (htmlToFrame metaTags)
         = numbered_buttons 1 (firstn 4 nodes)
         /\ Debug.buttonsAreOutOfOrder (Frame.debug (htmlToFrame metaTags))
            = false
         /\ Debug.invalidButtons (Frame.debug (htmlToFrame metaTags)) = [].
Proof.
  exists (encoded_buttons 1 nodes).
  split; [apply parseIntents_button_array|]. split.
  - eexists. apply encoded_buttons_renderable.
  - apply decode_rendered_buttons.
Qed.

Lemma buttons_round_trip_first_four_witness :
  Frame.buttons
    (htmlToFrame [meta "fc:frame:button:1" "A"; meta "fc:frame:button:2" "B";
                  meta "fc:frame:button:3" "C"; meta "fc:frame:button:4" "D";
                  meta "fc:frame:button:5" "E"])
  = [ mkFrameButton 1 (TitleString "A") "post";
      mkFrameButton 2 (TitleString "B") "post";
      mkFrameButton 3 (TitleString "C") "post";
      mkFrameButton 4 (TitleString "D") "post" ].
Proof.
  destruct (buttons_round_trip_first_four
              [([], [VString "A"]); ([], [VString "B"]);
               ([], [VString "C"]); ([], [VString "D"]);
               ([], [VString "E"])])
    as (outs & He & _ & H).
  vm_compute in He. injection He as <-.
  apply (H [meta "fc:frame:button:1" "A"; meta "fc:frame:button:2" "B";
            meta "fc:frame:button:3" "C"; meta "fc:frame:button:4" "D";
            meta "fc:frame:button:5" "E"]).
  repeat (constructor; [repeat split|]). constructor.
Defined.

(** X10.  A text input, given alone or as the one element of an array,
    is encoded to an output that renders to a meta element; decoding
    that element gives no button and an [input] whose text is the
    placeholder.  A text input without placeholder, or with an empty
    one, gives no [input] at all. *)
Theorem text_input_round_trip (intents : Intents) (props : Props) :
  intents = IntentArray [ChildNode (TextInputNode props)]
  \/ intents = IntentNode (TextInputNode props) ->
  exists out,
    (parseIntents intents = Normal (EncodedArray [out])
     \/ parseIntents intents = Normal (EncodedSingle out))
    /\ (exists t, rendered_as out t)
    /\ forall t,
         rendered_as out t ->
         Frame.buttons (htmlToFrame [t]) = []
         /\ Frame.input (htmlToFrame [t])
            = match attribute (prop props "placeholder") with
              | Some (String a s) => Some (mkFrameInput (String a s))
              | _ => None
              end.
Proof.
  intros Hi. exists (TextInput (text_input_props props [])).
  split; [destruct Hi as [-> | ->]; [left | right]; reflexivity|].
  assert (Hph : prop (text_input_props props []) "placeholder"
                = prop props "placeholder")
    by (apply prop_set_other; discriminate).
  unfold TextInput. rewrite Hph. split.
  - exists (mkMeta (Some "fc:frame:input:text")
              (attribute (prop props "placeholder")) "").
    repeat split.
  - intros t (_ & Hp & Hc). destruct t as [tp tc th].
    cbn [attr_property attr_content] in Hp, Hc.
    change (prop [("property", VString "fc:frame:input:text");
                  ("content", prop props "placeholder")] "content")
      with (prop props "placeholder") in Hc.
    simpl in Hp. subst tp tc.
    destruct (attribute (prop props "placeholder")) as [[|a s]|];
      split; reflexivity.
Qed.

Lemma text_input_round_trip_witness :
  Frame.buttons (htmlToFrame [meta "fc:frame:input:text" "Your name"]) = []
  /\ Frame.input (htmlToFrame [meta "fc:frame:input:text" "Your name"])
     = Some (mkFrameInput "Your name").
Proof.
  destruct (text_input_round_trip
              (IntentNode (TextInputNode [("placeholder", VString "Your name")]))
              [("placeholder", VString "Your name")]
              (or_intror eq_refl))
    as (out & He & _ & H).
  assert (Ho : out = TextInput
                       (text_input_props
                          [("placeholder", VString "Your name")] [])).
  { destruct He as [He|He]; vm_compute in He; [discriminate He|].
    injection He as <-. reflexivity. }
  subst out.
  apply (H (meta "fc:frame:input:text" "Your name")).
  repeat split.
Defined.

(** ** [toBaseUrl] *)

Lemma before_question_mark_none (s : string) :
  no_question_mark (before_question_mark s).
Proof.
  unfold no_question_mark. induction s as [|c s IH]; simpl; [tauto|].
  destruct (Ascii.eqb_spec c "?") as [->|Hne]; simpl; [tauto|].
  intros [H|H]; [now apply Hne | now apply IH].
Qed.

Lemma before_question_mark_prefix (s : string) :
  exists rest, s = (before_question_mark s ++ rest)%string.
Proof.
  induction s as [|c s [rest IH]]; simpl.
  - now exists EmptyString.
  - destruct (Ascii.eqb c "?").
    + now exists (String c s).
    + exists rest. simpl. now rewrite <- IH.
Qed.

Lemma before_question_mark_id (s : string) :
  no_question_mark s -> before_question_mark s = s.
Proof.
  unfold no_question_mark. induction s as [|c s IH]; simpl; [reflexivity|].
  intros H. destruct (Ascii.eqb_spec c "?") as [->|Hne]; [tauto|].
  now rewrite IH by tauto.
Qed.

Lemma before_question_mark_append (a b : string) :
  before_question_mark (a ++ String "?" b) = before_question_mark a.
Proof.
  induction a as [|c a IH]; simpl; [reflexivity|].
  destruct (Ascii.eqb c "?"); [reflexivity | now rewrite IH].
Qed.

Lemma slice_but_last_prefix (s : string) :
  exists rest, s = (slice_but_last s ++ rest)%string.
Proof.
  induction s as [|c s [rest IH]]; simpl.
  - now exists EmptyString.
  - destruct s as [|d s].
    + now exists (String c EmptyString).
    + exists rest. simpl. simpl in IH. now rewrite <- IH.
Qed.

Lemma slice_but_last_In (s : string) (c : ascii) :
  In c (list_ascii_of_string (slice_but_last s)) ->
  In c (list_ascii_of_string s).
Proof.
  induction s as [|d s IH]; simpl; [tauto|].
  destruct s as [|e s]; simpl; [tauto|].
  intros [H|H]; [now left | right; now apply IH].
Qed.

Lemma slice_but_last_append (s : string) (c : ascii) :
  slice_but_last (s ++ String c EmptyString) = s.
Proof.
  induction s as [|d s IH]; [reflexivity|].
  simpl append. simpl slice_but_last.
  destruct (s ++ String c EmptyString)%string eqn:E.
  - destruct s; discriminate E.
  - now rewrite IH.
Qed.

Lemma endsWith_append (s suffix : string) :
  endsWith (s ++ suffix) suffix = true.
Proof.
  induction s as [|c s IH]; simpl.
  - destruct suffix; simpl; [reflexivity|].
    now rewrite Ascii.eqb_refl, String.eqb_refl.
  - rewrite IH. apply orb_true_r.
Qed.

Lemma append_assoc (a b c : string) :
  ((a ++ b) ++ c = a ++ (b ++ c))%string.
Proof.
  induction a as [|x a IH]; simpl; [reflexivity | now rewrite IH].
Qed.

Lemma no_question_mark_append_slash (s : string) :
  no_question_mark s -> no_question_mark (s ++ "/").
Proof.
  unfold no_question_mark. intros Hs H. apply Hs. clear Hs.
  induction s as [|c s IH]; simpl in *.
  - destruct H as [H|[]]. discriminate H.
  - destruct H as [H|H]; [now left | right; now apply IH].
Qed.

Lemma toBaseUrl_no_question_mark (path : string) :
  no_question_mark (toBaseUrl path).
Proof.
  unfold toBaseUrl.
  destruct (endsWith (before_question_mark path) "/").
  - intros H. apply slice_but_last_In in H.
    now apply (before_question_mark_none path).
  - apply before_question_mark_none.
Qed.

Lemma toBaseUrl_id (s : string) :
  no_question_mark s -> endsWith s "/" = false -> toBaseUrl s = s.
Proof.
  intros Hs He. unfold toBaseUrl.
  rewrite (before_question_mark_id s Hs). now rewrite He.
Qed.

(** X11.  [toBaseUrl] returns a prefix of its argument that holds no
    question mark, and what stands from the first question mark on has
    no influence on it. *)
Theorem toBaseUrl_drops_the_query (path query : string) :
  no_question_mark (toBaseUrl path)
  /\ (exists rest, path = (toBaseUrl path ++ rest)%string)
  /\ toBaseUrl (path ++ String "?" query) = toBaseUrl path.
Proof.
  split; [apply toBaseUrl_no_question_mark|]. unfold toBaseUrl. split.
  - destruct (before_question_mark_prefix path) as [rest Hp].
    destruct (endsWith (before_question_mark path) "/").
    + destruct (slice_but_last_prefix (before_question_mark path))
        as [rest' Hs].
      exists (rest' ++ rest)%string.
      now rewrite <- append_assoc, <- Hs.
    + now exists rest.
  - now rewrite before_question_mark_append.
Qed.

(** X12.  [toBaseUrl] removes one trailing slash, and one only: for a
    text [s] without question mark, [toBaseUrl] of [s] followed by a
    slash is [s], also when [s] itself ends with a slash; and a text
    that does not end with a slash is returned as it is. *)
Theorem toBaseUrl_strips_one_slash (s : string) :
  no_question_mark s ->
  toBaseUrl (s ++ "/") = s
  /\ (endsWith s "/" = false -> toBaseUrl s = s).
Proof.
  intros Hs. split; [|now apply toBaseUrl_id].
  unfold toBaseUrl.
  rewrite (before_question_mark_id _ (no_question_mark_append_slash s Hs)).
  now rewrite endsWith_append, slice_but_last_append.
Qed.

Lemma toBaseUrl_strips_one_slash_witness :
  toBaseUrl "https://a/frame//" = "https://a/frame/"
  /\ toBaseUrl "https://a/frame" = "https://a/frame".
Proof.
  split.
  - apply (proj1 (toBaseUrl_strips_one_slash "https://a/frame/"
                    ltac:(unfold no_question_mark; simpl; intuition
                            discriminate))).
  - apply (proj2 (toBaseUrl_strips_one_slash "https://a/frame"
                    ltac:(unfold no_question_mark; simpl; intuition
                            discriminate))).
    reflexivity.
Defined.

(** X13.  The URL the frame route gives as [fc:frame:post_url] leads
    back to the same base URL.  With the URL of the context being
    [toBaseUrl] of the request URL, as [getFrameContext] sets it:
    unless that URL still ends with a slash (the request path ended
    with two), [toBaseUrl] of the post URL is the URL of the context
    again, whatever the serialized context is. *)
Theorem frame_post_url_keeps_base (request_url serializedContext : string) :
  endsWith (toBaseUrl request_url) "/" = false ->
  toBaseUrl (frame_post_url (toBaseUrl request_url) serializedContext)
  = toBaseUrl request_url.
Proof.
  intros Hs. unfold frame_post_url.
  pose proof (toBaseUrl_no_question_mark request_url) as Hq.
  rewrite (toBaseUrl_id _ Hq Hs).
  change ("?previousContext=" ++ serializedContext)%string
    with (String "?" ("previousContext=" ++ serializedContext)).
  unfold toBaseUrl at 1. rewrite before_question_mark_append.
  now rewrite (before_question_mark_id _ Hq), Hs.
Qed.

Lemma frame_post_url_keeps_base_witness :
  toBaseUrl (frame_post_url (toBaseUrl "https://a/frame/?fid=1")
               "%7B%22url%22%3A1%7D")
  = toBaseUrl "https://a/frame/?fid=1".
Proof.
  apply (frame_post_url_keeps_base "https://a/frame/?fid=1"
           "%7B%22url%22%3A1%7D").
  reflexivity.
Defined.

(** ** [serializeJson] and [deserializeJson] *)

Lemma uri_tokens_escape (c : ascii) (s : string) :
  uri_tokens (percent_escape c ++ s)
  = match uri_tokens s with
    | Normal ts => Normal (Octet (octet_of c) :: ts)
    | Throw e => Throw e
    end.
Proof.
  destruct c as [[|] [|] [|] [|] [|] [|] [|] [|]]; reflexivity.
Qed.

Lemma unreserved_is_ascii (c : ascii) :
  is_unreserved c = true -> (octet_of c <? 128) = true.
Proof.
  destruct c as [[|] [|] [|] [|] [|] [|] [|] [|]];
    (reflexivity || discriminate).
Qed.

Lemma unreserved_not_percent (c : ascii) :
  is_unreserved c = true -> Ascii.eqb c "%" = false.
Proof.
  destruct (Ascii.eqb_spec c "%") as [->|]; [discriminate | reflexivity].
Qed.

Lemma uri_tokens_encoded (s : string) :
  uri_tokens (encodeURIComponent s) = Normal (encoded_tokens s).
Proof.
  induction s as [|c s IH]; [reflexivity|].
  simpl encodeURIComponent. simpl encoded_tokens.
  destruct (is_unreserved c) eqn:E.
  - simpl append. rewrite uri_tokens_eq, (unreserved_not_percent c E).
    now rewrite IH.
  - now rewrite uri_tokens_escape, IH.
Qed.

Lemma octet_char_of (c : ascii) : octet_char (octet_of c) = c.
Proof.
  unfold octet_char, octet_of. rewrite Nat2Z.id.
  apply ascii_nat_embedding.
Qed.

Lemma high_octet_token (c : ascii) :
  (octet_of c <? 128) = false ->
  (if is_unreserved c then Plain c else Octet (octet_of c))
  = Octet (octet_of c).
Proof.
  intros H. destruct (is_unreserved c) eqn:E; [|reflexivity].
  apply unreserved_is_ascii in E. congruence.
Qed.

Lemma between_high (lo b hi : Z) :
  128 <= lo -> between lo b hi = true -> (b <? 128) = false.
Proof.
  unfold between. intros Hlo H.
  apply andb_true_iff in H as [H _]. apply Z.leb_le in H.
  apply Z.ltb_ge. lia.
Qed.

Lemma between_disjoint (lo b hi lo' hi' : Z) :
  hi < lo' -> between lo' b hi' = true -> between lo b hi = false.
Proof.
  unfold between. intros Hd H.
  apply andb_true_iff in H as [H _]. apply Z.leb_le in H.
  apply andb_false_iff. right. apply Z.leb_gt. lia.
Qed.

(** Reading back the tokens of a well-formed text gives the text. *)
Lemma uri_assemble_encoded (s : string) :
  Utf8 s -> uri_assemble (encoded_tokens s) = Normal s.
Proof.
  induction 1 as [|a r Ha _ IH|a b r Ha Hb _ IH|a b c r Ha Hb Hc _ IH
                 |a b c d r Ha Hb Hc Hd _ IH].
  - reflexivity.
  - simpl encoded_tokens. destruct (is_unreserved a).
    + simpl. now rewrite IH.
    + cbn [uri_assemble]. rewrite Ha, IH. simpl. now rewrite octet_char_of.
  - assert (Ha' : (octet_of a <? 128) = false)
      by (apply (between_high 194 _ 223); [lia | exact Ha]).
    assert (Hb' : (octet_of b <? 128) = false)
      by (apply (between_high 128 _ 191); [lia | exact Hb]).
    simpl encoded_tokens.
    rewrite (high_octet_token a Ha'), (high_octet_token b Hb').
    cbn [uri_assemble]. rewrite Ha', Ha, Hb, IH. simpl.
    now rewrite !octet_char_of.
  - assert (Ha' : (octet_of a <? 128) = false)
      by (apply (between_high 224 _ 239); [lia | exact Ha]).
    assert (Hb' : (octet_of b <? 128) = false)
      by (eapply between_high; [|exact Hb]; destruct (octet_of a =? 224);
          lia).
    assert (Hc' : (octet_of c <? 128) = false)
      by (apply (between_high 128 _ 191); [lia | exact Hc]).
    simpl encoded_tokens.
    rewrite (high_octet_token a Ha'), (high_octet_token b Hb'),
      (high_octet_token c Hc').
    cbn [uri_assemble].
    rewrite Ha', (between_disjoint 194 _ 223 224 239 ltac:(lia) Ha).
    rewrite Ha, Hb, Hc, IH. simpl. now rewrite !octet_char_of.
  - assert (Ha' : (octet_of a <? 128) = false)
      by (apply (between_high 240 _ 244); [lia | exact Ha]).
    assert (Hb' : (octet_of b <? 128) = false)
      by (eapply between_high; [|exact Hb]; destruct (octet_of a =? 240);
          lia).
    assert (Hc' : (octet_of c <? 128) = false)
      by (apply (between_high 128 _ 191); [lia | exact Hc]).
    assert (Hd' : (octet_of d <? 128) = false)
      by (apply (between_high 128 _ 191); [lia | exact Hd]).
    simpl encoded_tokens.
    rewrite (high_octet_token a Ha'), (high_octet_token b Hb'),
      (high_octet_token c Hc'), (high_octet_token d Hd').
    cbn [uri_assemble].
    rewrite Ha', (between_disjoint 194 _ 223 240 244 ltac:(lia) Ha),
      (between_disjoint 224 _ 239 240 244 ltac:(lia) Ha).
    rewrite Ha, Hb, Hc, Hd, IH. simpl. now rewrite !octet_char_of.
Qed.

Lemma decode_encode (s : string) :
  Utf8 s -> decodeURIComponent (encodeURIComponent s) = Normal s.
Proof.
  intros H. unfold decodeURIComponent.
  now rewrite uri_tokens_encoded, uri_assemble_encoded.
Qed.

(** X14.  Percent-encoding is transparent to the context token: for
    every value whose JSON text is well-formed, [deserializeJson] of
    what [serializeJson] returns is [JSON.parse] of that text, also for
    the default value of an absent argument. *)
Theorem deserialize_serialize {Data : Type} (JSON_stringify : Data -> string)
    (empty_object : Data) (data : option Data) :
  Utf8 (JSON_stringify (nullish data empty_object)) ->
  deserializeJson (Some (serializeJson JSON_stringify empty_object data))
  = JSON_parse (JSON_stringify (nullish data empty_object)).
Proof.
  intros H. unfold deserializeJson, serializeJson. simpl nullish at 1.
  now rewrite (decode_encode _ H).
Qed.

Lemma ascii_text_is_utf8 (s : string) :
  Forall (fun c => (octet_of c <? 128) = true) (list_ascii_of_string s) ->
  Utf8 s.
Proof.
  induction s as [|c s IH]; simpl; intros H; [constructor|].
  inversion H; subst. apply Utf8_1; auto.
Qed.

Lemma deserialize_serialize_witness :
  deserializeJson
    (Some (serializeJson (fun _ : unit => "{}") tt None))
  = Normal (JObject [])
  /\ deserializeJson
       (Some (serializeJson (fun s : string => s) "{}"
                (Some "[1, true, {}]")))
     = JSON_parse "[1, true, {}]".
Proof.
  split.
  - apply (deserialize_serialize (fun _ : unit => "{}") tt None).
    apply ascii_text_is_utf8. repeat constructor.
  - apply (deserialize_serialize (fun s : string => s) "{}"
             (Some "[1, true, {}]")).
    apply ascii_text_is_utf8. repeat constructor.
Defined.

Lemma hex_digit_unreserved (c : ascii) :
  is_unreserved (hex_digit (nat_of_ascii c / 16)) = true
  /\ is_unreserved (hex_digit (nat_of_ascii c mod 16)) = true.
Proof.
  destruct c as [[|] [|] [|] [|] [|] [|] [|] [|]]; split; reflexivity.
Qed.

(** X15.  What [serializeJson] returns is made of unreserved characters
    (letters, digits and [-_.!~*'()]) and of [%] only; so it holds no
    [?], [&], [=], [#] or [/] and stays within the query parameter it is
    written into. *)
Theorem serializeJson_charset {Data : Type} (JSON_stringify : Data -> string)
    (empty_object : Data) (data : option Data) (c : ascii) :
  In c (list_ascii_of_string
          (serializeJson JSON_stringify empty_object data)) ->
  (is_unreserved c = true \/ c = "%"%char)
  /\ ~ In c ["?"; "&"; "="; "#"; "/"]%char.
Proof.
  unfold serializeJson.
  generalize (JSON_stringify (nullish data empty_object)). intros s H.
  assert (Hc : is_unreserved c = true \/ c = "%"%char).
  { induction s as [|a s IH]; simpl in H; [destruct H|].
    destruct (is_unreserved a) eqn:E; simpl in H.
    - destruct H as [<-|H]; [now left | now apply IH].
    - destruct (hex_digit_unreserved a) as [Hh Hl].
      destruct H as [<-|[<-|[<-|H]]]; auto. }
  split; [exact Hc|].
  intros Hin. destruct Hc as [Hc| ->].
  - simpl in Hin.
    destruct Hin as [<-|[<-|[<-|[<-|[<-|[]]]]]]; discriminate Hc.
  - simpl in Hin. intuition discriminate.
Qed.

Lemma serializeJson_charset_witness :
  (is_unreserved "%" = true \/ "%"%char = "%"%char)
  /\ ~ In "%"%char ["?"; "&"; "="; "#"; "/"]%char.
Proof.
  apply (serializeJson_charset (fun s : string => s) "{}" (Some "{}") "%").
  simpl. now left.
Defined.

(** X16.  A button that is rendered without having gone through the
    traversal (a button nested below the nodes [parseIntents] visits)
    has no [index] prop: [Button] then writes the property
    [fc:frame:button:0], and the decoder passes over that tag. *)
Theorem unnumbered_button_is_not_decoded (props : Props)
    (t : HTMLMetaElement) (st : Scan.state) :
  prop props "index" = VUndefined ->
  rendered_as (Button props) t ->
  attr_property t = Some "fc:frame:button:0" /\ scan_tag st t = st.
Proof.
  intros Hi Hr. unfold Button in Hr. rewrite Hi in Hr.
  destruct Hr as (_ & Hp & _). destruct t as [tp tc th].
  cbn [attr_property] in *.
  change (prop [("property", VString ("fc:frame:button:"
                                       ++ Value_toString (VNumber 0)));
                ("content", prop props "children");
                ("data-value", prop props "value")] "property")
    with (VString "fc:frame:button:0") in Hp.
  simpl in Hp. subst tp. split; reflexivity.
Qed.

Lemma unnumbered_button_is_not_decoded_witness :
  scan_tag Scan.init (mkMeta (Some "fc:frame:button:0") (Some "Go") "")
  = Scan.init.
Proof.
  apply (unnumbered_button_is_not_decoded
           [("children", VString "Go")]
           (mkMeta (Some "fc:frame:button:0") (Some "Go") "") Scan.init).
  - reflexivity.
  - repeat split.
Defined.

(** ** The page of the frame route, decoded *)

Lemma is_empty_append (a b : string) (c : ascii) :
  is_empty (a ++ String c b) = false.
Proof. destruct a; reflexivity. Qed.

Lemma frame_image_url_not_empty (context_url serializedContext : string)
    (previousContext : option string) :
  is_empty (frame_image_url context_url serializedContext previousContext)
  = false.
Proof.
  unfold frame_image_url.
  change ("/image?context=" ++ serializedContext ++ "&previousContext="
            ++ template_text previousContext)%string
    with (String "/" ("image?context=" ++ serializedContext
                        ++ "&previousContext="
                        ++ template_text previousContext)).
  apply is_empty_append.
Qed.

Lemma frame_fixed_metas_renderable (context_url serializedContext : string)
    (previousContext : option string) :
  Forall2 rendered_as
    (map Some
       (frame_fixed_metas context_url serializedContext previousContext))
    (map meta_of_output
       (map Some
          (frame_fixed_metas context_url serializedContext previousContext))).
Proof.
  unfold frame_fixed_metas. cbn [map].
  repeat (constructor; [repeat split|]). constructor.
Qed.

(** X17.  The page the frame route renders decodes to the frame it
    describes.  For a handler that returns an array of button nodes as
    intents (or no intents): the head holds the four meta elements of
    the route and the encoded buttons, these render to meta elements,
    and decoding them gives the version [vNext], the image URL (also as
    [og:image]) and the post URL the route built, an image that is not
    reported as missing, the first four nodes as buttons numbered from
    1, and no ordering problem. *)
Theorem frame_head_decodes (context_url serializedContext : string)
    (previousContext : option string) (intents : option Intents)
    (nodes : list (Props * list Value)) :
  (intents = None /\ nodes = [])
  \/ intents = Some (IntentArray (button_intents nodes)) ->
  let fixed :=
    frame_fixed_metas context_url serializedContext previousContext in
  exists outs,
    ((intents = None /\ outs = []
      /\ frame_head context_url serializedContext previousContext intents
         = Normal (fixed, None))
     \/ frame_head context_url serializedContext previousContext intents
        = Normal (fixed, Some (EncodedArray outs)))
    /\ (exists metaTags, Forall2 rendered_as (map Some fixed ++ outs) metaTags)
    /\ forall metaTags,
         Forall2 rendered_as (map Some fixed ++ outs) metaTags ->
         let f := htmlToFrame metaTags in
         let image_url :=
           frame_image_url context_url serializedContext previousContext in
         Frame.version f = "vNext"
         /\ Frame.imageUrl f = image_url
         /\ Debug.image (Frame.debug f) = image_url
         /\ Frame.postUrl f = frame_post_url context_url serializedContext
         /\ Debug.fallbackImageToUrl (Frame.debug f) = false
         /\ Frame.input f = None
         /\ Frame.buttons f = numbered_buttons 1 (firstn 4 nodes)
         /\ Debug.buttonsAreOutOfOrder (Frame.debug f) = false
         /\ Debug.invalidButtons (Frame.debug f) = [].
Proof.
  intros Hi fixed.
  pose proof (frame_image_url_not_empty context_url serializedContext
                previousContext) as Himg.
  exists (encoded_buttons 1 nodes). split; [|split].
  { destruct Hi as [[-> ->] | ->].
    - left. repeat split.
    - right. unfold frame_head. now rewrite parseIntents_button_array. }
  { exists (map meta_of_output (map Some fixed ++ encoded_buttons 1 nodes)).
    rewrite map_app. apply Forall2_app.
    - apply frame_fixed_metas_renderable.
    - apply encoded_buttons_renderable. }
  clear Hi. subst fixed. unfold frame_fixed_metas. cbn [map].
  set (img := frame_image_url context_url serializedContext previousContext)
    in *.
  set (post := frame_post_url context_url serializedContext) in *.
  clearbody img post.
  intros metaTags HF. cbv zeta.
  apply Forall2_app_inv_l in HF as (hs & bts & Hh & Hb & ->).
  apply encoded_buttons_rendered in Hb.
  inversion Hh as [|? h1 ? ? Hr1 Hh1]; subst; clear Hh.
  inversion Hh1 as [|? h2 ? ? Hr2 Hh2]; subst; clear Hh1.
  inversion Hh2 as [|? h3 ? ? Hr3 Hh3]; subst; clear Hh2.
  inversion Hh3 as [|? h4 ? ? Hr4 Hh4]; subst; clear Hh3.
  inversion Hh4; subst; clear Hh4.
  destruct Hr1 as (_ & Hp1 & Hc1), Hr2 as (_ & Hp2 & Hc2),
    Hr3 as (_ & Hp3 & Hc3), Hr4 as (_ & Hp4 & Hc4).
  destruct h1 as [? ? ?], h2 as [? ? ?], h3 as [? ? ?], h4 as [? ? ?].
  cbn in Hp1, Hc1, Hp2, Hc2, Hp3, Hc3, Hp4, Hc4. subst.
  cbn [app].
  destruct nodes as [|[p1 c1] [|[p2 c2] [|[p3 c3] [|[p4 c4] rest]]]];
    cbn [numbered_buttons firstn snd] in *;
    repeat match goal with
      | |- context [Value_toString (VArray ?c)] =>
          let s := fresh "s" in
          set (s := Value_toString (VArray c)) in *; clearbody s
      end.
  - rendered_buttons Hb. repeat split; try reflexivity; exact Himg.
  - rendered_buttons Hb. rewrite <- Hc.
    repeat split; try reflexivity; exact Himg.
  - rendered_buttons Hb. rewrite <- Hc, <- Hc0.
    repeat split; try reflexivity; exact Himg.
  - rendered_buttons Hb. rewrite <- Hc, <- Hc0, <- Hc1.
    repeat split; try reflexivity; exact Himg.
  - inversion Hb as [|? t1 ? l1 [Hq1 Hd1] Hb1]; subst; clear Hb.
    inversion Hb1 as [|? t2 ? l2 [Hq2 Hd2] Hb2]; subst; clear Hb1.
    inversion Hb2 as [|? t3 ? l3 [Hq3 Hd3] Hb3]; subst; clear Hb2.
    inversion Hb3 as [|? t4 ? l4 [Hq4 Hd4] Hb4]; subst; clear Hb3.
    match goal with
    | |- context [htmlToFrame (?a :: ?b :: ?c :: ?d :: t1 :: t2 :: t3 :: t4
                                 :: l4)] =>
        assert (Hscan : scan (a :: b :: c :: d :: t1 :: t2 :: t3 :: t4 :: l4)
                        = scan [a; b; c; d; t1; t2; t3; t4])
    end.
    { unfold scan. cbn [fold_left].
      eapply scan_large_buttons; [|exact Hb4].
      rewrite Forall_forall. intros b Hin.
      apply numbered_buttons_index in Hin. lia. }
    rewrite (htmlToFrame_same_scan _ _ Hscan).
    unfold with_htmlTags.
    cbn [Frame.buttons Frame.debug Debug.buttonsAreOutOfOrder
         Debug.invalidButtons Frame.version Frame.imageUrl Debug.image
         Frame.postUrl Debug.fallbackImageToUrl Frame.input].
    destruct t1 as [? ? ?], t2 as [? ? ?], t3 as [? ? ?], t4 as [? ? ?].
    cbn [attr_property attr_content index title] in *. subst.
    rewrite <- Hd1, <- Hd2, <- Hd3, <- Hd4.
    repeat split; try reflexivity; exact Himg.
Qed.

Lemma frame_head_decodes_witness :
  let page :=
    [ meta "fc:frame" "vNext";
      meta "fc:frame:image"
        "https://a/frame/image?context=%7B%7D&previousContext=undefined";
      meta "og:image"
        "https://a/frame/image?context=%7B%7D&previousContext=undefined";
      meta "fc:frame:post_url" "https://a/frame?previousContext=%7B%7D";
      meta "fc:frame:button:1" "Yes";
      meta "fc:frame:button:2" "No" ] in
  Frame.version (htmlToFrame page) = "vNext"
  /\ Frame.imageUrl (htmlToFrame page)
     = "https://a/frame/image?context=%7B%7D&previousContext=undefined"
  /\ Frame.postUrl (htmlToFrame page)
     = "https://a/frame?previousContext=%7B%7D"
  /\ Frame.buttons (htmlToFrame page)
     = [ mkFrameButton 1 (TitleString "Yes") "post";
         mkFrameButton 2 (TitleString "No") "post" ].
Proof.
  intros page.
  destruct (frame_head_decodes "https://a/frame" "%7B%7D" None
              (Some (IntentArray (button_intents [([], [VString "Yes"]);
                                                  ([], [VString "No"])])))
              [([], [VString "Yes"]); ([], [VString "No"])]
              (or_intror eq_refl))
    as (outs & He & _ & H).
  assert (Ho : outs = encoded_buttons 1 [([], [VString "Yes"]);
                                         ([], [VString "No"])]).
  { destruct He as [(He & _) | He]; [discriminate He|].
    vm_compute in He. injection He as <-. reflexivity. }
  subst outs.
  assert (HF : Forall2 rendered_as
                 (map Some (frame_fixed_metas "https://a/frame" "%7B%7D" None)
                  ++ encoded_buttons 1 [([], [VString "Yes"]);
                                        ([], [VString "No"])])
                 page).
  { repeat (constructor; [repeat split|]). constructor. }
  destruct (H page HF) as (Hv & Hi & _ & Hp & _ & _ & Hb & _).
  repeat split; assumption.
Defined.
